(** * Pinniped: schema management engine

    A shallow embedding of the table model ([src/models/table.js]), the
    column model ([models/column.js]), the error classes
    ([utils/errors.js]) and the row rehydration helper
    ([utils/parse_json_columns.js]), with the properties of the schema
    diff, of validation and of the migration paths.

    Conventions.  JavaScript strings are [string]; a property that is
    absent, [undefined] or [""] is falsy, and the model writes all three as
    the empty string where the code only tests truthiness.  Arrays are
    lists.  A thrown exception is the left injection of the result of a
    computation, which also returns the state reached when it was thrown. *)

From stdpp Require Import base option list strings pretty gmap.
From Stdlib Require Import ZArith.

Open Scope string_scope.
Open Scope list_scope.
Open Scope nat_scope.

(** ** Exceptions ([utils/errors.js]) *)

(** [class AppError extends Error]: message, HTTP status, code, detail. *)
Record AppError := mkAppError {
  message : string;
  status : Z;
  errorCode : string;
  detail : string;
}.

(** [class BadRequestError]: the constructor takes one argument and passes
    four constants to [super]; the argument is not used. *)
Definition BadRequestError (_ : string) : AppError :=
  mkAppError "Hmm this operation didn't work" 400 "BAD_REQUEST"
    "Failed to execute the request. Probably due to an invalid ID provided.".

(** What a computation can throw: an application error, the [TypeError] of
    a property read on [undefined], the [SyntaxError] of [JSON.parse], and
    the failure of a call to the data access object, which carries an
    error of the store that the code never inspects. *)
Inductive Exception :=
  | AppErr (e : AppError)
  | TypeError (what : string)
  | SyntaxError
  | StoreError (what : string).

(** ** Computations with state and exceptions *)

Definition M (S A : Type) : Type := S → (Exception + A) * S.

Global Instance M_ret {S} : MRet (M S) := λ A a s, (inr a, s).
Global Instance M_bind {S} : MBind (M S) := λ A B f m s,
  match m s with
  | (inr a, s') => f a s'
  | (inl e, s') => (inl e, s')
  end.

Definition throw {S A} (e : Exception) : M S A := λ s, (inl e, s).
Definition get {S} : M S S := λ s, (inr s, s).
Definition modify {S} (f : S → S) : M S unit := λ s, (inr tt, f s).

(** [try { body } catch (err) { handler }] *)
Definition try_catch {S A} (body : M S A) (handler : Exception → M S A) : M S A :=
  λ s, match body s with
       | (inr a, s') => (inr a, s')
       | (inl e, s') => handler e s'
       end.

(** [for (let x of xs) { body }]; [continue] is the normal return of the
    body, an exception leaves the loop. *)
Fixpoint for_of {S A} (xs : list A) (body : A → M S unit) : M S unit :=
  match xs with
  | [] => mret tt
  | x :: xs' => body x ;; for_of xs' body
  end.

(** [if (c) { body }] with no else branch. *)
Definition when {S} (c : bool) (body : M S unit) : M S unit :=
  if c then body else mret tt.

(** The outcome of a method that has no state of its own and either
    returns [undefined] or throws. *)
Definition Outcome : Type := Exception + unit.

(** ** Column model ([models/column.js]) *)

(** A constructed column has the three properties the constructor assigns:
    [this.id], [this.name], [this.type]. *)
Record Column := mkColumn {
  col_id : string;
  col_name : string;
  col_type : string;
}.

Global Instance Column_eq_dec : EqDecision Column.
Proof. solve_decision. Defined.

(** The free-form [options] bag of the constructor's argument. *)
Definition Options := gmap string string.

(** The argument object of [new Column({ id, name, type, options })]; a
    property that is missing is [None]. *)
Record ColumnArgs := mkColumnArgs {
  arg_id : option string;
  arg_name : option string;
  arg_type : option string;
  arg_options : option Options;
}.

Section Uuid.

(** [uuidv4()] of the [uuid] package: the state is the number of
    identifiers drawn so far, [uuid n] is the n-th one. *)
Variable uuid : nat → string.

Definition uuidv4 : M nat string := λ n, (inr (uuid n), S n).

(** [constructor({ id = uuidv4(), name, type, options = {} })]: the default
    of [id] is evaluated only when [id] is missing; the assignment of
    [options] is commented out in the source, so the destructured value is
    dropped. *)
Definition Column_new (a : ColumnArgs) : M nat Column :=
  id ← match arg_id a with Some i => mret i | None => uuidv4 end;
  let name := default "" (arg_name a) in
  let type := default "" (arg_type a) in
  let options := default (∅ : Options) (arg_options a) in
  mret (mkColumn id name type).

End Uuid.

(** ** Type registry *)

(** Modelled from the spec: [Column.COLUMN_MAP] and [Column.isValidType]
    are used by the table model and are not part of the column class as
    given.  The registry maps a type name to its
    metadata, of which the code reads the flag [isJson] (values are stored
    as encoded text); a type is valid when it resolves in the registry. *)
Record ColumnType := mkColumnType {
  isJson : bool;
}.

Definition isValidType (COLUMN_MAP : gmap string ColumnType) (type : string) : bool :=
  bool_decide (is_Some (COLUMN_MAP !! type)).

(** ** Table model ([src/models/table.js]) *)

(** The properties of a table object; [this.id] and [this.name] are written
    [tbl_id] and [tbl_name]. *)
Record Table := mkTable {
  tbl_id : string;
  tbl_name : string;
  columns : list Column;
  getAllRule : string;
  getOneRule : string;
  createRule : string;
  updateRule : string;
  deleteRule : string;
}.

Global Instance Table_eq_dec : EqDecision Table.
Proof. solve_decision. Defined.

Definition API_RULES : list string :=
  ["getAllRule"; "getOneRule"; "createRule"; "updateRule"; "deleteRule"].
Definition API_RULE_VALUES : list string := ["public"; "user"; "creator"; "admin"].
Definition DEFAULT_RULE : string := "public".

(** [this[rule]] for the property names of [API_RULES]. *)
Definition rule_of (t : Table) (rule : string) : string :=
  if decide (rule = "getAllRule") then getAllRule t
  else if decide (rule = "getOneRule") then getOneRule t
  else if decide (rule = "createRule") then createRule t
  else if decide (rule = "updateRule") then updateRule t
  else if decide (rule = "deleteRule") then deleteRule t
  else "".

(** Truthiness of a string: only the empty string is falsy. *)
Definition truthy (s : string) : bool := bool_decide (s ≠ "").

(** [xs.forEach((x) => { ... throw ... })]: the first exception thrown by
    the callback leaves the loop. *)
Fixpoint forEach {A} (xs : list A) (f : A → Outcome) : Outcome :=
  match xs with
  | [] => inr tt
  | x :: xs' => match f x with inr _ => forEach xs' f | inl e => inl e end
  end.

Definition reserved (key : string) : bool :=
  bool_decide (key = "id") || bool_decide (key = "created_at")
  || bool_decide (key = "updated_at").

Section Validate.

Variable COLUMN_MAP : gmap string ColumnType.

(** [Table.validate()]: the checks in the order of the source, each one
    throwing a [BadRequestError]. *)
Definition validate (t : Table) : Outcome :=
  if negb (truthy (tbl_id t)) then
    inl (AppErr (BadRequestError "Table doesn't have a valid ID."))
  else if negb (truthy (tbl_name t)) then
    inl (AppErr (BadRequestError "The table must have a name."))
  else if bool_decide (length (columns t) = 0) then
    inl (AppErr (BadRequestError "The table must have at least one column."))
  else if negb (forallb (λ column, truthy (col_id column)) (columns t)) then
    inl (AppErr (BadRequestError "Columns must have IDs."))
  else if negb (forallb (λ column, truthy (col_name column)) (columns t)) then
    inl (AppErr (BadRequestError "All columns must have names."))
  else if negb (forallb (λ column, truthy (col_type column)) (columns t)) then
    inl (AppErr (BadRequestError "All columns must have types."))
  else if negb (forallb (λ column, isValidType COLUMN_MAP (col_type column)) (columns t)) then
    inl (AppErr (BadRequestError
      ("Invalid type passed: valid types are "
         +:+ String.concat "," (map fst (map_to_list COLUMN_MAP)))))
  else if existsb (λ column, reserved (col_name column)) (columns t) then
    inl (AppErr (BadRequestError
      "Cannot add a column with a name of id, created_at, or updated_at"))
  else
    let colNames := col_name <$> columns t in
    let setNames := remove_dups colNames in
    if negb (bool_decide (length colNames = length setNames)) then
      inl (AppErr (BadRequestError
        "All column names must be unique for a single table."))
    else
      forEach API_RULES (λ rule,
        if negb (bool_decide (rule_of t rule ∈ API_RULE_VALUES)) then
          inl (AppErr (BadRequestError ("Invalid " +:+ rule +:+ ": " +:+ rule_of t rule)))
        else inr tt).

End Validate.

(** [getColumns()], [getColumnById(id)]: [Array.prototype.find] returns the
    first column whose id is strictly equal to [id]; [null] is [None]. *)
Definition getColumns (t : Table) : list Column := columns t.

Definition getColumnById (t : Table) (i : string) : option Column :=
  let foundColumn := find (λ column, bool_decide (col_id column = i)) (columns t) in
  match foundColumn with
  | None => None
  | Some c => Some c
  end.

(** Modelled from the spec: [Table.getColumnByName] is called by the row
    rehydration helper and is not a method of the table class as given; it
    is the lookup of [getColumnById] keyed by the column name. *)
Definition getColumnByName (t : Table) (n : string) : option Column :=
  find (λ column, bool_decide (col_name column = n)) (columns t).

(** ** JSON text of a column list *)

(** [JSON.stringify] of an array of columns and [JSON.parse] of such a
    text are taken as given; a text that does not parse is [None]. *)
Class JSON := {
  JSON_stringify : list Column → string;
  JSON_parse_columns : string → option (list ColumnArgs);
}.

(** The argument object of [new Table({...})].  [columns] is an array of
    column literals or, when a catalog row is rehydrated, their JSON text. *)
Record TableArgs := mkTableArgs {
  targ_id : option string;
  targ_name : option string;
  targ_columns : option (list ColumnArgs + string);
  targ_getAllRule : option string;
  targ_getOneRule : option string;
  targ_createRule : option string;
  targ_updateRule : option string;
  targ_deleteRule : option string;
}.

(** [xs.map((x) => f(x))] for a callback with effects. *)
Fixpoint map_of {S A B} (xs : list A) (f : A → M S B) : M S (list B) :=
  match xs with
  | [] => mret []
  | x :: xs' => y ← f x; ys ← map_of xs' f; mret (y :: ys)
  end.

Definition lift {S} (o : Outcome) : M S unit := λ s, (o, s).

Section Constructor.

Context `{JSON}.
Variable uuid : nat → string.
Variable COLUMN_MAP : gmap string ColumnType.

(** [constructor({ id = uuidv4(), name = "", columns = [], ...rules })]:
    the assignments to [this], which rebuild every column with
    [new Column]. *)
Definition Table_assign (a : TableArgs) : M nat Table :=
  id ← match targ_id a with Some i => mret i | None => uuidv4 uuid end;
  let name := default "" (targ_name a) in
  columns ← match default (inl []) (targ_columns a) with
            | inl cs => mret cs
            | inr text => match JSON_parse_columns text with
                          | Some cs => mret cs
                          | None => throw SyntaxError
                          end
            end;
  columns ← map_of columns (Column_new uuid);
  let this := mkTable id name columns
                (default DEFAULT_RULE (targ_getAllRule a))
                (default DEFAULT_RULE (targ_getOneRule a))
                (default DEFAULT_RULE (targ_createRule a))
                (default DEFAULT_RULE (targ_updateRule a))
                (default DEFAULT_RULE (targ_deleteRule a)) in
  mret this.

(** The constructor ends with [this.validate()]. *)
Definition Table_new (a : TableArgs) : M nat Table :=
  this ← Table_assign a;
  lift (validate COLUMN_MAP this);;
  mret this.

End Constructor.

(** ** The data access object and the migration runner *)

(** The catalog row rendered into a migration:
    [{ ...table, columns: table.stringifyColumns() }]. *)
Record TableMetaRow := mkTableMetaRow {
  row_id : string;
  row_name : string;
  row_columns : string;
  row_getAllRule : string;
  row_getOneRule : string;
  row_createRule : string;
  row_updateRule : string;
  row_deleteRule : string;
}.

Global Instance TableMetaRow_eq_dec : EqDecision TableMetaRow.
Proof. solve_decision. Defined.

(** The calls a migration makes on the DAO, with their arguments. *)
Inductive DaoCall :=
  | createTable (table : Table)
  | addTableMetaData (row : TableMetaRow)
  | dropTable (tableName : string)
  | deleteTableMetaData (tableId : string)
  | dropColumn (tableName columnName : string)
  | addColumn (tableName : string) (column : Column)
  | renameColumn (tableName oldName newName : string)
  | renameTable (oldName newName : string)
  | updateTableMetaData (row : TableMetaRow).

Global Instance DaoCall_eq_dec : EqDecision DaoCall.
Proof. solve_decision. Defined.

Definition method (c : DaoCall) : string :=
  match c with
  | createTable _ => "createTable"
  | addTableMetaData _ => "addTableMetaData"
  | dropTable _ => "dropTable"
  | deleteTableMetaData _ => "deleteTableMetaData"
  | dropColumn _ _ => "dropColumn"
  | addColumn _ _ => "addColumn"
  | renameColumn _ _ _ => "renameColumn"
  | renameTable _ _ => "renameTable"
  | updateTableMetaData _ => "updateTableMetaData"
  end.

(** Modelled from the spec: the DAO ([dao/dao.js]) is a collaborator that
    the table model imports.  Its store holds the physical schema
    and the catalog; a call either yields the next store or fails, in
    which case the awaited promise rejects and the store is as before. *)
Class DAO := {
  Store : Type;
  dao_exec : DaoCall → Store → option Store;
  dao_findTableByName : Store → string → list TableMetaRow;
}.

(** What a migration function sees through its [knex] handle: the store and
    the calls completed on it so far, oldest first. *)
Record DB `{DAO} := mkDB {
  store : Store;
  journal : list DaoCall;
}.

(** [await dao.method(args)] *)
Definition dao `{DAO} (c : DaoCall) : M DB unit := λ db,
  match dao_exec c (store db) with
  | Some s' => (inr tt, mkDB _ s' (journal db ++ [c]))
  | None => (inl (StoreError (method c)), db)
  end.

Section Migrations.

Context `{DAO}.

(** Body of [up] in the template of [create] (and of [down] in [drop]). *)
Definition create_body (table : Table) (row : TableMetaRow) : M DB unit :=
  dao (createTable table);;
  dao (addTableMetaData row).

(** Body of [up] in the template of [drop] (and of [down] in [create]). *)
Definition drop_body (tableName tableId : string) : M DB unit :=
  dao (dropTable tableName);;
  dao (deleteTableMetaData tableId).

(** The three structural steps of [up] and [down] in the template of
    [updateTo] (delete columns; add or rename columns; rename table), over
    the constants the template interpolates. *)
Definition diff_body (oldTable newTable : Table)
    (oldColumns newColumns : list Column) : M DB unit :=
  for_of oldColumns (λ oldColumn,
    match find (λ newColumn, bool_decide (col_id oldColumn = col_id newColumn)) newColumns with
    | Some _ => mret tt
    | None => dao (dropColumn (tbl_name oldTable) (col_name oldColumn))
    end);;
  for_of newColumns (λ newColumn,
    let match_ :=
      find (λ oldColumn, bool_decide (col_id oldColumn = col_id newColumn)) oldColumns in
    when (negb (bool_decide (is_Some match_)))
      (dao (addColumn (tbl_name oldTable) newColumn));;
    match match_ with
    | Some m =>
        when (bool_decide (col_name m ≠ col_name newColumn))
          (dao (renameColumn (tbl_name oldTable) (col_name m) (col_name newColumn)))
    | None => mret tt
    end);;
  when (bool_decide (tbl_name oldTable ≠ tbl_name newTable))
    (dao (renameTable (tbl_name oldTable) (tbl_name newTable))).

(** The whole function: the structural steps, then the catalog write. *)
Definition update_body (oldTable newTable : Table)
    (oldColumns newColumns : list Column) (row : TableMetaRow) : M DB unit :=
  diff_body oldTable newTable oldColumns newColumns;;
  dao (updateTableMetaData row).

(** A rendered migration function: which template body it is and the
    constants interpolated into it.  [Stub] is the empty function of the
    file that [migrate.make] generates.  [run_script] is the function that
    the template means; the runner runs it when the text of the file is
    read as that module (see [well_read] and [migrate_up]). *)
Inductive Script :=
  | Stub
  | CreateScript (table : Table) (row : TableMetaRow)
  | DropScript (tableName tableId : string)
  | UpdateScript (oldTable newTable : Table)
      (oldColumns newColumns : list Column) (row : TableMetaRow).

Definition run_script (s : Script) : M DB unit :=
  match s with
  | Stub => mret tt
  | CreateScript table row => create_body table row
  | DropScript tableName tableId => drop_body tableName tableId
  | UpdateScript oldTable newTable oldColumns newColumns row =>
      update_body oldTable newTable oldColumns newColumns row
  end.

(** A migration file exports [up] and [down]. *)
Record MigrationFile := mkMigrationFile {
  up : Script;
  down : Script;
}.

End Migrations.

(** ** The text of a migration file *)

(** The templates paste their constants through [JSON.stringify], except
    for the name and the id of the table in [create] and [drop], which go
    raw between double quotes: [dao.dropTable("${this.name}")] and
    [dao.deleteTableMetaData("${this.id}")].  JavaScript reads such a text
    as the string that was pasted when the string holds no double quote,
    no backslash and no line break (line feed, carriage return). *)
Definition verbatim (s : string) : bool :=
  forallb
    (λ c, negb (bool_decide (c ∈ [Ascii.ascii_of_nat 34; Ascii.ascii_of_nat 92;
                                   Ascii.ascii_of_nat 10; Ascii.ascii_of_nat 13])))
    (String.list_ascii_of_string s).

Definition reads_verbatim (s : Script) : bool :=
  match s with
  | DropScript tableName tableId => verbatim tableName && verbatim tableId
  | _ => true
  end.

(** The text of the file is the module that the template means. *)
Definition well_read (f : MigrationFile) : bool :=
  reads_verbatim (up f) && reads_verbatim (down f).

(** Otherwise the text is other JavaScript: a literal that ends early or
    is another string, other calls, or a module that does not load.  What
    the migration runner makes of such a file when it runs its [up] is
    taken as given. *)
Class Engine `{DAO} := {
  other_js : MigrationFile → M DB unit;
}.

(** ** The table paths: [create], [drop], [updateTo] *)

Section Paths.

Context `{DAO} `{JSON} `{!Engine}.

(** A migration file is named by its place in the directory (the
    timestamp prefix that [migrate.make] gives it) and the name passed. *)
Definition Path : Type := nat * string.

(** The world the table paths act on: the store behind the DAO, the
    connections that are open (by handle), the migration directory in file
    order, and how many of its files the runner has completed. *)
Record World := mkWorld {
  database : DB;
  next_handle : nat;
  open_handles : gset nat;
  files : list (Path * MigrationFile);
  completed : nat;
}.

(** [new DAO()]: a DAO that is passed no connection opens one of its own;
    the DAO is known by the handle of its connection. *)
Definition new_DAO : M World nat := λ w,
  (inr (next_handle w),
   mkWorld (database w) (S (next_handle w)) ({[next_handle w]} ∪ open_handles w)
     (files w) (completed w)).

(** [Table.getNewConnection()]: [new DAO().getDB()], the connection of a
    new DAO. *)
Definition getNewConnection : M World nat :=
  dao ← new_DAO;
  mret dao.

(** [await db.destroy()] *)
Definition destroy (h : nat) : M World unit :=
  modify (λ w, mkWorld (database w) (next_handle w) (open_handles w ∖ {[h]})
                 (files w) (completed w)).

(** [await db.migrate.make(name)]: a new stub file at the end of the
    directory; its path is returned. *)
Definition migrate_make (h : nat) (n : string) : M World Path := λ w,
  let filePath := (length (files w), n) in
  (inr filePath,
   mkWorld (database w) (next_handle w) (open_handles w)
     (files w ++ [(filePath, mkMigrationFile Stub Stub)]) (completed w)).

(** [fs.writeFileSync(filePath, migrateTemplate)] *)
Definition writeFileSync (filePath : Path) (content : MigrationFile) : M World unit :=
  modify (λ w, mkWorld (database w) (next_handle w) (open_handles w)
                 ((λ f, if decide (f.1 = filePath) then (filePath, content) else f)
                    <$> files w)
                 (completed w)).

(** [await db.migrate.up()]: loads the next file that has not been
    completed, if there is one, and runs its [up]; when that throws, the
    file stays pending and the exception propagates. *)
Definition migrate_up (h : nat) : M World unit := λ w,
  match files w !! completed w with
  | None => (inr tt, w)
  | Some (_, f) =>
      match (if well_read f then run_script (up f) else other_js f) (database w) with
      | (inr _, db') =>
          (inr tt, mkWorld db' (next_handle w) (open_handles w) (files w)
                     (S (completed w)))
      | (inl e, db') =>
          (inl e, mkWorld db' (next_handle w) (open_handles w) (files w)
                    (completed w))
      end
  end.

(** [await dao.findTableByName(name)] *)
Definition findTableByName (dao : nat) (n : string) : M World (list TableMetaRow) :=
  λ w, (inr (dao_findTableByName (store (database w)) n), w).

Definition stringifyColumns (t : Table) : string := JSON_stringify (getColumns t).

(** [{ ...table, columns: table.stringifyColumns() }] *)
Definition metaRow (t : Table) : TableMetaRow :=
  mkTableMetaRow (tbl_id t) (tbl_name t) (stringifyColumns t)
    (getAllRule t) (getOneRule t) (createRule t) (updateRule t) (deleteRule t).

(** [async validateUpdateTo(newTable)] *)
Definition validateUpdateTo (this newTable : Table) : Outcome :=
  if bool_decide (tbl_id this ≠ tbl_id newTable) then
    inl (AppErr (BadRequestError "Table ID cannot be changed."))
  else inr tt.

(** [migrateTemplate] of [create]: the rendered file, [this] serialized
    into [up] and its name and id pasted raw into [down]. *)
Definition create_template (this : Table) : MigrationFile :=
  let stringTable := this in
  let stringTableMetaRow := metaRow this in
  mkMigrationFile (CreateScript stringTable stringTableMetaRow)
                  (DropScript (tbl_name this) (tbl_id this)).

(** [async create()]: the DAO of the name check is one of its own, which
    nothing closes. *)
Definition create (this : Table) : M World unit :=
  dao ← new_DAO;
  existingTable ← findTableByName dao (tbl_name this);
  when (bool_decide (length existingTable ≠ 0))
    (throw (AppErr (BadRequestError "The table name already exists: ")));;
  db ← getNewConnection;
  filePath ← migrate_make db ("create_table_" +:+ tbl_name this);
  let migrateTemplate := create_template this in
  writeFileSync filePath migrateTemplate;;
  migrate_up db;;
  destroy db.

(** [migrateTemplate] of [drop]: the name and the id pasted raw into [up],
    [this] serialized into [down]. *)
Definition drop_template (this : Table) : MigrationFile :=
  let stringTable := this in
  let stringTableMetaRow := metaRow this in
  mkMigrationFile (DropScript (tbl_name this) (tbl_id this))
                  (CreateScript stringTable stringTableMetaRow).

(** [async drop()] *)
Definition drop (this : Table) : M World unit :=
  db ← getNewConnection;
  filePath ← migrate_make db ("drop_table_" +:+ tbl_name this);
  let migrateTemplate := drop_template this in
  writeFileSync filePath migrateTemplate;;
  migrate_up db;;
  destroy db.

(** [migrateTemplate] of [updateTo]: [down] is the text of [up] with the
    old and the new constants exchanged. *)
Definition update_template (this newTable : Table) : MigrationFile :=
  let oldColumns := getColumns this in
  let newColumns := getColumns newTable in
  let newStringTableMetaRow := metaRow newTable in
  let oldStringTableMetaRow := metaRow this in
  mkMigrationFile
    (UpdateScript this newTable oldColumns newColumns newStringTableMetaRow)
    (UpdateScript newTable this newColumns oldColumns oldStringTableMetaRow).

(** [async updateTo(newTable)] *)
Definition updateTo (this newTable : Table) : M World unit :=
  lift (validateUpdateTo this newTable);;
  db ← getNewConnection;
  filePath ← migrate_make db ("update_table_" +:+ tbl_name this);
  let migrateTemplate := update_template this newTable in
  writeFileSync filePath migrateTemplate;;
  migrate_up db;;
  destroy db.

End Paths.

(** ** Row rehydration ([utils/parse_json_columns.js]) *)

Section Rows.

(** The values held in a row and [JSON.parse] on them are taken as given:
    [JSON_parse v] is [None] when [JSON.parse] throws; the argument is
    [None] for [undefined]. *)
Variable Value : Type.
Variable JSON_parse : option Value → option Value.
Variable COLUMN_MAP : gmap string ColumnType.

(** A row object: its own enumerable properties in the order [for...in]
    visits them.  Every row of the array is an object of its own. *)
Definition Row : Type := list (string * Value).

Definition keys (row : Row) : list string := row.*1.

(** [row[key]] *)
Definition row_get (key : string) (row : Row) : option Value :=
  snd <$> find (λ kv, bool_decide (kv.1 = key)) row.

(** [row[key] = v]: an existing property keeps its place, a new one is
    added last. *)
Fixpoint row_set (key : string) (v : Value) (row : Row) : Row :=
  match row with
  | [] => [(key, v)]
  | (k, w) :: rest =>
      if decide (k = key) then (k, v) :: rest else (k, w) :: row_set key v rest
  end.

(** [for (let row of rows) { body }] where the body mutates [row]. *)
Fixpoint for_rows (body : M Row unit) (rows : list Row) : (Exception + unit) * list Row :=
  match rows with
  | [] => (inr tt, [])
  | row :: rest =>
      match body row with
      | (inr _, row') =>
          let '(r, rest') := for_rows body rest in (r, row' :: rest')
      | (inl e, row') => (inl e, row' :: rest)
      end
  end.

(** The body of [for (let key in row)].  [Column.COLUMN_MAP[columnType]]
    converts an [undefined] type to the property key ["undefined"]; reading
    [.isJson] of a missing entry throws a [TypeError].  The [console.log]
    calls are left out. *)
Definition parseKey (table : Table) (key : string) : M Row unit :=
  if reserved key then mret tt
  else
    let column := getColumnByName table key in
    let columnType := match column with Some c => col_type c | None => "undefined" end in
    match COLUMN_MAP !! columnType with
    | None => throw (TypeError "Cannot read properties of undefined (reading 'isJson')")
    | Some entry =>
        let isStringifiedJson := isJson entry in
        when isStringifiedJson
          (try_catch
             (row ← get;
              match JSON_parse (row_get key row) with
              | Some v => modify (row_set key v)
              | None => throw SyntaxError
              end)
             (λ err, mret tt))
    end.

(** [parseJsonColumns(table, rows)] *)
Definition parseJsonColumns (table : Table) : M (list Row) unit :=
  for_rows (row ← get; for_of (keys row) (parseKey table)).

End Rows.

Arguments keys {Value} row.
Arguments row_get {Value} key row.
Arguments row_set {Value} key v row.
Arguments for_rows {Value} body rows.
Arguments parseKey {Value} JSON_parse COLUMN_MAP table key.
Arguments parseJsonColumns {Value} JSON_parse COLUMN_MAP table.

(** ** The operation sequence of a schema update *)

(** A DAO that accepts every call and only records it. *)
Definition recorder : DAO := {|
  Store := unit;
  dao_exec := λ _ _, Some tt;
  dao_findTableByName := λ _ _, [];
|}.

(** The calls a migration function makes when none of them fails. *)
Definition calls_of (p : M (@DB recorder) unit) : list DaoCall :=
  journal (p (@mkDB recorder tt [])).2.

(** [diff oldTable newTable]: the structural operations of the update
    migration from [oldTable] to [newTable], in the order they are made. *)
Definition diff (oldTable newTable : Table) : list DaoCall :=
  calls_of (diff_body oldTable newTable (getColumns oldTable) (getColumns newTable)).

(** Running a list of calls one after the other; the first failure ends
    the run. *)
Definition exec_calls `{DAO} (cs : list DaoCall) : M DB unit := for_of cs dao.

(** [Array.prototype.find] on a column array, by id. *)
Definition find_id (cols : list Column) (i : string) : option Column :=
  find (λ c, bool_decide (col_id c = i)) cols.

(** The update algorithm in the words of the specification.

    Drops: a drop-column for every old column whose id has no counterpart
    in the new table, in the old table's column order. *)
Definition drops_spec (oldTable newTable : Table) : list DaoCall :=
  (λ c, dropColumn (tbl_name oldTable) (col_name c))
    <$> filter (λ c, col_id c ∉ col_id <$> columns newTable) (columns oldTable).

(** Adds and renames, in the new table's column order: no old column with
    the same id, an add-column carrying the new definition; a match with a
    different name, a rename-column; a match with the same name, nothing. *)
Definition add_or_rename_spec (oldTable : Table) (c : Column) : list DaoCall :=
  match find_id (columns oldTable) (col_id c) with
  | None => [addColumn (tbl_name oldTable) c]
  | Some m =>
      if decide (col_name m = col_name c) then []
      else [renameColumn (tbl_name oldTable) (col_name m) (col_name c)]
  end.

Definition adds_renames_spec (oldTable newTable : Table) : list DaoCall :=
  columns newTable ≫= add_or_rename_spec oldTable.

(** Table rename: last, and only when the name changed. *)
Definition rename_table_spec (oldTable newTable : Table) : list DaoCall :=
  if decide (tbl_name oldTable = tbl_name newTable) then []
  else [renameTable (tbl_name oldTable) (tbl_name newTable)].

Definition diff_spec (oldTable newTable : Table) : list DaoCall :=
  drops_spec oldTable newTable ++ adds_renames_spec oldTable newTable
    ++ rename_table_spec oldTable newTable.

(** Catalog update: whatever came before, the row of the new table. *)
Definition forward_spec `{JSON} (oldTable newTable : Table) : list DaoCall :=
  diff_spec oldTable newTable ++ [updateTableMetaData (metaRow newTable)].

(** ** The other error classes and the error handler *)

(** [class TableNotFoundError], [DatabaseError], [AdminPrivilegesRequired],
    [ValidationError] of [utils/errors.js]: the template literals with the
    table name filled in. *)
Definition TableNotFoundError (table : string) : AppError :=
  mkAppError ("Table " +:+ table +:+ " not found") 404 "TABLE_NOT_FOUND"
    ("Table " +:+ table
       +:+ " not found.  You've likely attempted to access a table that does not exist within the database").

Definition DatabaseError : AppError :=
  mkAppError "Database error" 404 "DATABASE_ERROR"
    "The database encountered an error.  Don't look at us".

Definition AdminPrivilegesRequired (table : string) : AppError :=
  mkAppError ("Admin privilege is required for the " +:+ table +:+ " table") 401
    "ADMIN_REQUIRED" "You don't have admin privileges to access this resource.".

Definition ValidationError (table : string) : AppError :=
  mkAppError "Validation failed for this attempt" 402 "INVALID_REQUEST"
    ("You likely provided data that is not compatible with the " +:+ table +:+ " table").

(** What the error handler reads of the object it is passed; a property
    the object does not have is [None]. *)
Record ErrorObject := mkErrorObject {
  err_message : option string;
  err_status : option Z;
  err_detail : option string;
  err_errorCode : option string;
}.

(** An [AppError] has the four properties; a [TypeError] has a message. *)
Definition error_object (e : Exception) : option ErrorObject :=
  match e with
  | AppErr a =>
      Some (mkErrorObject (Some (message a)) (Some (status a)) (Some (detail a))
              (Some (errorCode a)))
  | TypeError what => Some (mkErrorObject (Some what) None None None)
  | _ => None
  end.

(** The response: the status set by [res.status] and the object passed to
    [res.json]. *)
Record Response := mkResponse {
  res_status : Z;
  res_message : option string;
  res_detail : option string;
  res_errorCode : option string;
}.

(** [api/middleware/error_handler.js]:
    [res.status(err.status || 500).json({ message, detail, errorCode })];
    a status that is missing or 0 is falsy. *)
Definition errorHandler (err : ErrorObject) : Response :=
  mkResponse
    (match err_status err with
     | Some z => if bool_decide (z = 0%Z) then 500%Z else z
     | None => 500%Z
     end)
    (err_message err) (err_detail err) (err_errorCode err).

(** ** Authentication handlers ([api/auth.js]) *)

(** [delete row[key]] *)
Definition row_delete {Value} (key : string) (row : list (string * Value)) :
    list (string * Value) :=
  filter (λ kv, kv.1 ≠ key) row.

(** What the handlers use and is defined elsewhere: values made of strings
    and [undefined]; the DAO of the application on its store, a call being
    [None] when its promise rejects; [bcrypt]; [generateUuid], by the
    number of identifiers drawn so far; and the listeners of the login
    events ([onLoginUser], [onLoginAdmin], named here by the table of the
    login), whose promise resolves or rejects on the user they are
    handed. *)
Class AuthEnv (Value : Type) := {
  str : string → Value;
  undefined : Value;
  Users : Type;
  dao_getAll : string → Users → option (list (Row Value));
  dao_search : string → Row Value → Users → option (list (Row Value));
  dao_createOne : string → Row Value → Users → option (list (Row Value) * Users);
  dao_updateOne :
    string → Value → Row Value → Users → option (list (Row Value) * Users);
  bcrypt_hash : Value → option Value;
  bcrypt_compare : Value → Value → option bool;
  generateUuid : nat → Value;
  listeners : string → Row Value → option unit;
}.

(** The rows handed to the DAO for writing. *)
Inductive Write (Value : Type) :=
  | CreateOne (table : string) (row : Row Value)
  | UpdateOne (table : string) (id : Value) (row : Row Value).

Arguments CreateOne {Value} table row.
Arguments UpdateOne {Value} table id row.

(** What a handler throws.  The classes [AuthenticationError],
    [UnauthenticatedError] and [ForbiddenError] are imported from
    [utils/errors.js]; they are told apart by class and by the message
    passed.  [Rejected] is a rejected promise of a collaborator, [Uncaught]
    an exception of the language. *)
Inductive AuthException :=
  | AuthenticationError (message : option string)
  | UnauthenticatedError
  | ForbiddenError
  | Rejected (who : string)
  | Uncaught (e : Exception).

Section Auth.

Context {Value : Type} `{EqDecision Value} `{AuthEnv Value}.
Variable JSON_parse : option Value → option Value.
Variable COLUMN_MAP : gmap string ColumnType.

(** What a request sees and changes: the store, [req.session.user],
    [req.body], the identifiers drawn, and the rows sent to the DAO for
    writing, oldest first. *)
Record AuthState := mkAuthState {
  users : Users;
  session_user : option (Row Value);
  req_body : Row Value;
  drawn : nat;
  sent : list (Write Value);
}.

Definition Handler (A : Type) : Type := AuthState → (AuthException + A) * AuthState.

#[export] Instance Handler_ret : MRet Handler := λ A a st, (inr a, st).
#[export] Instance Handler_bind : MBind Handler := λ A B f m st,
  match m st with
  | (inr a, st') => f a st'
  | (inl e, st') => (inl e, st')
  end.

Definition raise {A} (e : AuthException) : Handler A := λ st, (inl e, st).

(** [row[key]] read into a variable: a missing property is [undefined]. *)
Definition prop (key : string) (row : Row Value) : Value :=
  default undefined (row_get key row).

(** [await] of a collaborator's promise. *)
Definition await {A} (who : string) (r : option A) : Handler A :=
  match r with
  | Some a => mret a
  | None => raise (Rejected who)
  end.

Definition getBody : Handler (Row Value) := λ st, (inr (req_body st), st).
Definition getSession : Handler (option (Row Value)) := λ st, (inr (session_user st), st).

Definition setBody (f : Row Value → Row Value) : Handler unit := λ st,
  (inr tt, mkAuthState (users st) (session_user st) (f (req_body st)) (drawn st) (sent st)).

Definition setSession (u : option (Row Value)) : Handler unit := λ st,
  (inr tt, mkAuthState (users st) u (req_body st) (drawn st) (sent st)).

(** [generateUuid()] *)
Definition drawUuid : Handler Value := λ st,
  (inr (generateUuid (drawn st)),
   mkAuthState (users st) (session_user st) (req_body st) (S (drawn st)) (sent st)).

(** [await this.app.getDAO().getAll(table)], [.search(table, fields)] *)
Definition getAll (table : string) : Handler (list (Row Value)) := λ st,
  await "getAll" (dao_getAll table (users st)) st.

Definition search (table : string) (fields : Row Value) : Handler (list (Row Value)) :=
  λ st, await "search" (dao_search table fields (users st)) st.

(** [await this.app.getDAO().createOne(table, row)]: the row is sent, then
    the store answers or rejects. *)
Definition createOne (table : string) (row : Row Value) : Handler (list (Row Value)) :=
  λ st,
  let st1 := mkAuthState (users st) (session_user st) (req_body st) (drawn st)
               (sent st ++ [CreateOne table row]) in
  match dao_createOne table row (users st) with
  | Some (rows, users') =>
      (inr rows, mkAuthState users' (session_user st1) (req_body st1) (drawn st1) (sent st1))
  | None => (inl (Rejected "createOne"), st1)
  end.

Definition updateOne (table : string) (id : Value) (row : Row Value) :
    Handler (list (Row Value)) := λ st,
  let st1 := mkAuthState (users st) (session_user st) (req_body st) (drawn st)
               (sent st ++ [UpdateOne table id row]) in
  match dao_updateOne table id row (users st) with
  | Some (rows, users') =>
      (inr rows, mkAuthState users' (session_user st1) (req_body st1) (drawn st1) (sent st1))
  | None => (inl (Rejected "updateOne"), st1)
  end.

(** [rows[0]] followed by a property access: [undefined] has no
    properties. *)
Definition first_row (rows : list (Row Value)) : Handler (Row Value) :=
  match rows with
  | row :: _ => mret row
  | [] => raise (Uncaught (TypeError "Cannot convert undefined or null to object"))
  end.

(** [parseJsonColumns(table, [row])] on the one row; the row is the object
    that the call has mutated. *)
Definition parseJsonColumns_of (table : Table) (row : Row Value) : Handler (Row Value) :=
  match parseJsonColumns JSON_parse COLUMN_MAP table [row] with
  | (inr _, [row']) => mret row'
  | (inr _, _) => mret row
  | (inl e, _) => raise (Uncaught e)
  end.

(** [registerHandler()]: the value is the data of the [ResponseData] that
    the handler hands to its listeners. *)
Definition registerHandler (table : Table) : Handler (Row Value) :=
  user ← getSession;
  match user with
  | Some u =>
      if bool_decide (createRule table = "creator")
      then setBody (row_set "creator" (prop "id" u))
      else mret tt
  | None => mret tt
  end;;
  setBody (row_delete "passwordConfirm");;
  body ← getBody;
  hashedPassword ← await "bcrypt.hash" (bcrypt_hash (prop "password" body));
  id ← drawUuid;
  createdUser ← createOne "users"
    (row_set "role" (str "user")
       (row_set "password" hashedPassword (row_set "id" id body)));
  createdUser ← first_row createdUser;
  let createdUser := row_delete "password" createdUser in
  parseJsonColumns_of table createdUser.

(** [updateUsername()], with [req.params.id] *)
Definition updateUsername (table : Table) (id : Value) : Handler (Row Value) :=
  body ← getBody;
  let username := prop "username" body in
  updatedUser ← updateOne "users" id [("username", username)];
  updatedUser ← first_row updatedUser;
  let updatedUser := row_delete "password" updatedUser in
  parseJsonColumns_of table updatedUser.

(** [updatePasswordHandler()]: [updatedUser] is the array that [updateOne]
    resolves to, and [delete updatedUser.password] removes a property that
    an array does not have. *)
Definition updatePasswordHandler (id : Value) : Handler (list (Row Value)) :=
  body ← getBody;
  let password := prop "password" body in
  hashedPassword ← await "bcrypt.hash" (bcrypt_hash password);
  updatedUser ← updateOne "users" id [("password", hashedPassword)];
  mret updatedUser.

(** [loginHandler()] on ["users"] and [loginAdminHandler()] on ["admins"]:
    the two functions differ in the table and in the name of the event.
    The session user is set before the listeners of the event are
    awaited; the value is the user of the [ResponseData] handed to them. *)
Definition login (table : string) : Handler (Row Value) :=
  body ← getBody;
  let username := prop "username" body in
  let password := prop "password" body in
  existing ← search table [("username", username)];
  match existing with
  | [] => raise (AuthenticationError None)
  | found :: _ =>
      match_ ← await "bcrypt.compare" (bcrypt_compare password (prop "password" found));
      if negb match_ then raise (AuthenticationError None)
      else
        setSession (Some (row_delete "password" found));;
        await "triggerListeners" (listeners table (row_delete "password" found));;
        mret (row_delete "password" found)
  end.

Definition loginHandler : Handler (Row Value) := login "users".
Definition loginAdminHandler : Handler (Row Value) := login "admins".

(** [registerAdminHandler()]: the value is [createdAdmin[0].username]. *)
Definition registerAdminHandler : Handler Value :=
  body ← getBody;
  let username := prop "username" body in
  let password := prop "password" body in
  allAdmins ← getAll "admins";
  user ← getSession;
  match allAdmins, user with
  | [], _ => mret tt
  | _ :: _, None => raise UnauthenticatedError
  | _ :: _, Some u =>
      if bool_decide (row_get "role" u ≠ Some (str "admin")) then raise ForbiddenError
      else mret tt
  end;;
  existingAdmin ← search "admins" [("username", username)];
  match existingAdmin with
  | _ :: _ => raise (AuthenticationError (Some "Username not available"))
  | [] => mret tt
  end;;
  hashedPassword ← await "bcrypt.hash" (bcrypt_hash password);
  id ← drawUuid;
  createdAdmin ← createOne "admins"
    [("id", id); ("username", username); ("password", hashedPassword);
     ("role", str "admin")];
  createdAdmin ← first_row createdAdmin;
  mret (prop "username" (row_delete "password" createdAdmin)).

(** [adminExistsHandler()]: the value of [registered] in the response. *)
Definition adminExistsHandler : Handler bool :=
  existingAdmin ← getAll "admins";
  mret (bool_decide (length existingAdmin ≠ 0)).

End Auth.

(** * Definitions for the properties *)

(** ** Validation *)

(** The invariant set of a table, as the specification lists it. *)
Definition invariants (COLUMN_MAP : gmap string ColumnType) (t : Table) : Prop :=
  tbl_id t ≠ "" ∧ tbl_name t ≠ "" ∧ columns t ≠ [] ∧
  Forall (λ c, col_id c ≠ "" ∧ col_name c ≠ "" ∧ col_type c ≠ "") (columns t) ∧
  Forall (λ c, is_Some (COLUMN_MAP !! col_type c)) (columns t) ∧
  Forall (λ c, col_name c ∉ ["id"; "created_at"; "updated_at"]) (columns t) ∧
  NoDup (col_name <$> columns t) ∧
  Forall (λ rule, rule ∈ API_RULE_VALUES)
    [getAllRule t; getOneRule t; createRule t; updateRule t; deleteRule t].

(** ** Symmetry of the diff *)

(** The inverse of one operation of the update from [oldTable] to
    [newTable], in the words of the specification: an add becomes a drop of
    that column, a drop becomes an add of the same definition (the old
    table's column of that name), a rename reverses its two names, a table
    rename reverses direction.  The inverse runs on the migrated table, so
    its column operations address the table by the new name. *)
Definition invert (oldTable newTable : Table) (op : DaoCall) : option DaoCall :=
  match op with
  | dropColumn _ columnName =>
      addColumn (tbl_name newTable) <$> getColumnByName oldTable columnName
  | addColumn _ column => Some (dropColumn (tbl_name newTable) (col_name column))
  | renameColumn _ oldName newName =>
      Some (renameColumn (tbl_name newTable) newName oldName)
  | renameTable oldName newName => Some (renameTable newName oldName)
  | _ => None
  end.

(** The columns of [cols] that have no column of the same id in [others]. *)
Definition unmatched (others cols : list Column) : list Column :=
  filter (λ c, col_id c ∉ col_id <$> others) cols.

Definition add_part (others : list Column) (mk : Column → DaoCall) (c : Column) :
    list DaoCall :=
  match find_id others (col_id c) with
  | None => [mk c]
  | Some _ => []
  end.

Definition rename_part (others : list Column) (mk : Column → Column → DaoCall)
    (c : Column) : list DaoCall :=
  match find_id others (col_id c) with
  | Some m => if decide (col_name m = col_name c) then [] else [mk m c]
  | None => []
  end.

(** The inverse of [diff_spec oldTable newTable], operation by operation
    and in the order of the forward sequence. *)
Definition inverse_spec (oldTable newTable : Table) : list DaoCall :=
  (addColumn (tbl_name newTable) <$> unmatched (columns newTable) (columns oldTable))
  ++ (columns newTable ≫= λ c,
        add_part (columns oldTable)
          (λ c, dropColumn (tbl_name newTable) (col_name c)) c
        ++ rename_part (columns oldTable)
             (λ m c, renameColumn (tbl_name newTable) (col_name c) (col_name m)) c)
  ++ rename_table_spec newTable oldTable.

(** ** The operations of one column *)

(** The column an operation of the diff acts on, by id: an add carries the
    column; a drop and a rename name a column of the old table. *)
Definition column_of_op (oldTable : Table) (op : DaoCall) : option string :=
  match op with
  | addColumn _ column => Some (col_id column)
  | dropColumn _ columnName => col_id <$> getColumnByName oldTable columnName
  | renameColumn _ oldName _ => col_id <$> getColumnByName oldTable oldName
  | _ => None
  end.

(** The operations of the diff on the column with id [i], in order. *)
Definition ops_on (oldTable newTable : Table) (i : string) : list DaoCall :=
  filter (λ op, column_of_op oldTable op = Some i) (diff oldTable newTable).

(** What the specification says of the column id [i]: in both revisions
    with different names, one rename and nothing else; only in the new
    one, one add; only in the old one, one drop; in both with the same
    name, nothing. *)
Definition column_ops_correct (oldTable newTable : Table) (i : string) : Prop :=
  match getColumnById oldTable i, getColumnById newTable i with
  | Some m, Some c =>
      ops_on oldTable newTable i
      = if decide (col_name m = col_name c) then []
        else [renameColumn (tbl_name oldTable) (col_name m) (col_name c)]
  | None, Some c => ops_on oldTable newTable i = [addColumn (tbl_name oldTable) c]
  | Some m, None =>
      ops_on oldTable newTable i = [dropColumn (tbl_name oldTable) (col_name m)]
  | None, None => ops_on oldTable newTable i = []
  end.

(** ** The table paths *)

Section PathDefinitions.

Context `{DAO} `{!Engine}.

(** The migration directory is in file order, and every open handle has
    been handed out. *)
Definition wf_world (w : World) : Prop :=
  (∀ i p f, files w !! i = Some (p, f) → p.1 = i) ∧
  (∀ h, h ∈ open_handles w → h < next_handle w).

(** The world once a new DAO has opened its connection. *)
Definition connected (w : World) : World :=
  mkWorld (database w) (S (next_handle w)) ({[next_handle w]} ∪ open_handles w)
    (files w) (completed w).

(** The world once a connection is open and the rendered file is written. *)
Definition persisted (w : World) (n : string) (f : MigrationFile) : World :=
  mkWorld (database w) (S (next_handle w)) ({[next_handle w]} ∪ open_handles w)
    (files w ++ [((length (files w), n), f)]) (completed w).

(** What [migrate.up] and [destroy] make of a world. *)
Definition released (h : nat) (w : World) : World :=
  mkWorld (database w) (next_handle w) (open_handles w ∖ {[h]}) (files w)
    (completed w).

(** The tail that [create], [drop] and [updateTo] share: open a connection,
    make the file, write the template, run the migration, close. *)
Definition apply_unit (n : string) (f : MigrationFile) : M World unit :=
  db ← getNewConnection;
  filePath ← migrate_make db n;
  writeFileSync filePath f;;
  migrate_up db;;
  destroy db.

End PathDefinitions.

(** ** Row rehydration *)

Section RowDefinitions.

Context {Value : Type}.
Variable JSON_parse : option Value → option Value.
Variable COLUMN_MAP : gmap string ColumnType.

Local Abbreviation Row := (Row Value).

(** The key names a column whose type the registry stores as JSON text. *)
Definition requires_json (table : Table) (key : string) : bool :=
  match getColumnByName table key with
  | Some c =>
      match COLUMN_MAP !! col_type c with
      | Some entry => isJson entry
      | None => false
      end
  | None => false
  end.

(** The key names a column whose type is in the registry. *)
Definition resolves (table : Table) (key : string) : Prop :=
  ∃ c, getColumnByName table key = Some c ∧ is_Some (COLUMN_MAP !! col_type c).

(** Rehydration in the words of the specification: under a key that is not
    reserved and whose column type is stored as JSON text, the decoded
    value when decoding succeeds and the stored value when it fails; every
    other value as it is. *)
Definition rehydrate_value (table : Table) (key : string) (v : Value) : Value :=
  if negb (reserved key) && requires_json table key
  then default v (JSON_parse (Some v))
  else v.

Definition rehydrate_row (table : Table) (row : Row) : Row :=
  (λ kv, (kv.1, rehydrate_value table kv.1 kv.2)) <$> row.

(** The values under the reserved keys and the keys themselves are the
    same before and after. *)
Definition same_frame (row row' : Row) : Prop :=
  keys row' = keys row ∧
  Forall (λ key, row_get key row' = row_get key row) ["id"; "created_at"; "updated_at"].

End RowDefinitions.

(** The registry key that the rehydration reads for a row key: the type
    of the column of that name, or ["undefined"] when there is none. *)
Definition type_key (table : Table) (key : string) : string :=
  match getColumnByName table key with
  | Some c => col_type c
  | None => "undefined"
  end.

(** The row key is one whose value the rehydration passes to
    [JSON.parse]: not reserved, and its registry entry has [isJson]. *)
Definition decodes (COLUMN_MAP : gmap string ColumnType) (table : Table)
    (key : string) : bool :=
  negb (reserved key)
  && match COLUMN_MAP !! type_key table key with
     | Some entry => isJson entry
     | None => false
     end.

(** The row key is one at which the rehydration throws: not reserved, and
    no registry entry. *)
Definition unregistered (COLUMN_MAP : gmap string ColumnType) (table : Table)
    (key : string) : bool :=
  negb (reserved key) && bool_decide (COLUMN_MAP !! type_key table key = None).

(** * Sample data *)

(** A registry with four types, one of them stored as JSON text. *)
Definition sample_COLUMN_MAP : gmap string ColumnType :=
  {[ "text" := mkColumnType false; "int" := mkColumnType false;
     "float" := mkColumnType false; "json" := mkColumnType true ]}.

(** A stand-in for the JSON text of a column list: the fields of every
    column, separated by commas and semicolons; nothing parses. *)
Definition sample_JSON : JSON := {|
  JSON_stringify := λ cols,
    String.concat ";"
      ((λ c, col_id c +:+ "," +:+ col_name c +:+ "," +:+ col_type c) <$> cols);
  JSON_parse_columns := λ _, None;
|}.

Definition seals (cols : list Column) : Table :=
  mkTable "T1" "seals" cols "public" "public" "public" "public" "public".

(** The scenario of the specification: [age] is renamed to [years] and
    [weight] is added. *)
Definition seals_v1 : Table := seals [mkColumn "C1" "age" "int"].
Definition seals_v2 : Table :=
  seals [mkColumn "C1" "years" "int"; mkColumn "C2" "weight" "float"].

(** A revision that passes [validate()] although two of its columns have
    the id [C1]. *)
Definition seals_dup : Table :=
  seals [mkColumn "C1" "age" "int"; mkColumn "C1" "years" "int"].

(** A revision that passes [validate()] and has two columns with the id
    [C2], which [seals_v1] does not have. *)
Definition seals_two_adds : Table :=
  seals [mkColumn "C1" "age" "int"; mkColumn "C2" "weight" "float";
         mkColumn "C2" "mass" "float"].

(** Another table, of a name that no sample store has; and one whose
    name holds a double quote. *)
Definition otters : Table :=
  mkTable "T4" "otters" [mkColumn "C1" "age" "int"]
    "public" "public" "public" "public" "public".

Definition quoted : Table :=
  mkTable "T5" ("sea" +:+ String (Ascii.ascii_of_nat 34) "ls")
    [mkColumn "C1" "age" "int"]
    "public" "public" "public" "public" "public".

(** *** A sample store *)

(** Modelled from the spec: a store for the examples, an instance of the
    DAO interface.  It holds the physical tables (name and
    columns) and the catalog rows; a call fails when the table or column it
    names is missing or the name it introduces is taken. *)
Record SampleStore := mkSampleStore {
  physical : list (string * list Column);
  catalog : list TableMetaRow;
}.

Definition has_table (s : SampleStore) (n : string) : bool :=
  bool_decide (n ∈ (physical s).*1).

Definition table_columns (s : SampleStore) (n : string) : option (list Column) :=
  snd <$> find (λ t, bool_decide (t.1 = n)) (physical s).

Definition set_columns (s : SampleStore) (n : string) (cols : list Column) : SampleStore :=
  mkSampleStore ((λ t, if decide (t.1 = n) then (n, cols) else t) <$> physical s)
    (catalog s).

Definition sample_exec (c : DaoCall) (s : SampleStore) : option SampleStore :=
  match c with
  | createTable t =>
      if has_table s (tbl_name t) then None
      else Some (mkSampleStore (physical s ++ [(tbl_name t, columns t)]) (catalog s))
  | addTableMetaData row => Some (mkSampleStore (physical s) (catalog s ++ [row]))
  | dropTable n =>
      if has_table s n
      then Some (mkSampleStore (filter (λ t, t.1 ≠ n) (physical s)) (catalog s))
      else None
  | deleteTableMetaData i =>
      Some (mkSampleStore (physical s) (filter (λ r, row_id r ≠ i) (catalog s)))
  | dropColumn n cn =>
      cols ← table_columns s n;
      if bool_decide (cn ∈ col_name <$> cols)
      then Some (set_columns s n (filter (λ c, col_name c ≠ cn) cols))
      else None
  | addColumn n col =>
      cols ← table_columns s n;
      if bool_decide (col_name col ∈ col_name <$> cols) then None
      else Some (set_columns s n (cols ++ [col]))
  | renameColumn n a b =>
      cols ← table_columns s n;
      if bool_decide (a ∈ col_name <$> cols) && negb (bool_decide (b ∈ col_name <$> cols))
      then Some (set_columns s n
                   ((λ c, if decide (col_name c = a)
                          then mkColumn (col_id c) b (col_type c) else c) <$> cols))
      else None
  | renameTable a b =>
      if has_table s a && negb (has_table s b)
      then Some (mkSampleStore
                   ((λ t, if decide (t.1 = a) then (b, t.2) else t) <$> physical s)
                   (catalog s))
      else None
  | updateTableMetaData row =>
      Some (mkSampleStore (physical s)
              ((λ r, if decide (row_id r = row_id row) then row else r) <$> catalog s))
  end.

Definition sample_DAO : DAO := {|
  Store := SampleStore;
  dao_exec := sample_exec;
  dao_findTableByName := λ s n, filter (λ r, row_name r = n) (catalog s);
|}.

(** An engine for the examples: a file whose text is not the module that
    its template means does not load. *)
Definition sample_Engine : @Engine sample_DAO := {|
  other_js := λ _ db, (inl SyntaxError, db);
|}.

Definition sample_world (s : SampleStore) : @World sample_DAO :=
  @mkWorld sample_DAO (@mkDB sample_DAO s []) 0 ∅ [] 0.

(** Nothing yet; the table [seals] and its catalog row; and the table
    [seals] without a catalog row, as a [create] leaves them when
    [createTable] has succeeded and [addTableMetaData] has failed. *)
Definition empty_store : SampleStore := mkSampleStore [] [].
Definition seals_store : SampleStore :=
  mkSampleStore [("seals", columns seals_v1)] [@metaRow sample_JSON seals_v1].
Definition orphan_store : SampleStore :=
  mkSampleStore [("seals", columns seals_v1)] [].

(** The world that [create] of [seals] leaves on [orphan_store]: the
    migration has failed at [createTable] and its file stays pending. *)
Definition stale_world : @World sample_DAO :=
  (@create sample_DAO sample_JSON sample_Engine seals_v1 (sample_world orphan_store)).2.

(** *** Sample rows *)

(** Stored values: text, numbers, and the structured value that a JSON
    text decodes to. *)
Inductive SampleValue :=
  | Text (s : string)
  | Number (n : Z)
  | Decoded (text : string).

(** A stand-in for [JSON.parse]: a number is its own value, a text that
    opens with a bracket or a brace decodes, [undefined] and any other text
    make it throw. *)
Definition sample_parse (o : option SampleValue) : option SampleValue :=
  match o with
  | Some (Number n) => Some (Number n)
  | Some (Text s) =>
      if String.prefix "[" s || String.prefix "{" s then Some (Decoded s) else None
  | _ => None
  end.

Definition notes : Table :=
  mkTable "T2" "notes" [mkColumn "C1" "data" "json"; mkColumn "C2" "note" "text"]
    "public" "public" "public" "public" "public".

Definition notes_rows : list (Row SampleValue) :=
  [ [("id", Number 1); ("data", Text "[1,2]"); ("note", Text "[hi]");
     ("created_at", Text "2024-01-01")];
    [("id", Number 2); ("data", Text "oops"); ("note", Text "lo");
     ("created_at", Text "2024-01-02")] ].

Definition sample_uuid (n : nat) : string := "uuid-" +:+ pretty n.

(** *** A sample application for the authentication handlers *)

(** Request values: text, or [undefined]. *)
Inductive AuthValue :=
  | AText (s : string)
  | AUndefined.

#[export] Instance AuthValue_eq_dec : EqDecision AuthValue.
Proof. solve_decision. Defined.

(** The fields of [fields] are those of [row]. *)
Definition matches (fields row : Row AuthValue) : bool :=
  forallb (λ kv, bool_decide (row_get kv.1 row = Some kv.2)) fields.

(** [row] with the fields of [fields] written over it. *)
Definition merge (fields row : Row AuthValue) : Row AuthValue :=
  foldl (λ r kv, row_set kv.1 kv.2 r) row fields.

(** Modelled from the spec: a store for the examples, the rows of every
    table by the name of the table.  [createOne] appends the row and
    resolves to it, [updateOne] writes the fields over the rows of that id
    and resolves to them; [bcrypt] prefixes the text, and rejects
    [undefined]; no listener rejects. *)
Definition sample_AuthEnv : AuthEnv AuthValue := {|
  str := AText;
  undefined := AUndefined;
  Users := list (string * Row AuthValue);
  dao_getAll := λ table store, Some (snd <$> filter (λ r, r.1 = table) store);
  dao_search := λ table fields store,
    Some (snd <$> filter (λ r, r.1 = table ∧ matches fields r.2) store);
  dao_createOne := λ table row store, Some ([row], store ++ [(table, row)]);
  dao_updateOne := λ table id fields store,
    let hit (r : string * Row AuthValue) :=
      bool_decide (r.1 = table ∧ row_get "id" r.2 = Some id) in
    Some (merge fields <$> (snd <$> filter (λ r, hit r) store),
          (λ r, if hit r then (r.1, merge fields r.2) else r) <$> store);
  bcrypt_hash := λ v,
    match v with AText s => Some (AText ("$2b$" +:+ s)) | AUndefined => None end;
  bcrypt_compare := λ v h,
    match v, h with
    | AText s, AText t => Some (bool_decide ("$2b$" +:+ s = t))
    | _, _ => None
    end;
  generateUuid := λ n, AText (sample_uuid n);
  listeners := λ _ _, Some tt;
|}.

(** The table of the users; only the creator of a row may be named as its
    [creator]. *)
Definition users_table : Table :=
  mkTable "T3" "users"
    [mkColumn "C1" "username" "text"; mkColumn "C2" "password" "text";
     mkColumn "C3" "role" "text"; mkColumn "C4" "creator" "text"]
    "public" "public" "creator" "public" "public".

(** A store with the admin [ada] and the user [bob], whose password is
    [hunter2]. *)
Definition sample_users : list (string * Row AuthValue) :=
  [("admins", [("id", AText "A1"); ("username", AText "ada");
               ("password", AText "$2b$lovelace"); ("role", AText "admin")]);
   ("users", [("id", AText "U1"); ("username", AText "bob");
              ("password", AText "$2b$hunter2"); ("role", AText "user")])].

(** The session user [bob]; a registration that asks for the role [admin];
    and the identity function for a [JSON.parse] that no column of
    [users_table] calls. *)
Definition bob : Row AuthValue :=
  [("id", AText "U1"); ("username", AText "bob"); ("role", AText "user")].

Definition eve_body : Row AuthValue :=
  [("username", AText "eve"); ("password", AText "pw");
   ("passwordConfirm", AText "pw"); ("role", AText "admin")].

Definition auth_parse (o : option AuthValue) : option AuthValue := o.

Definition request (store : list (string * Row AuthValue))
    (user : option (Row AuthValue)) (body : Row AuthValue) :
    @AuthState AuthValue sample_AuthEnv :=
  @mkAuthState AuthValue sample_AuthEnv store user body 0 [].

(** * Properties *)

(** ** Validation *)

Lemma remove_dups_length {A} `{EqDecision A} (l : list A) :
  length (remove_dups l) ≤ length l.
Proof.
  induction l as [|x l IH]; simpl; [lia|].
  destruct (decide_rel _ x l); simpl; lia.
Qed.

Lemma remove_dups_length_NoDup {A} `{EqDecision A} (l : list A) :
  length l = length (remove_dups l) ↔ NoDup l.
Proof.
  induction l as [|x l IH]; simpl.
  - split; [constructor | done].
  - pose proof (remove_dups_length l) as Hle.
    destruct (decide_rel _ x l) as [Hin|Hin]; simpl.
    + split; [lia | by inversion 1].
    + rewrite NoDup_cons. split.
      * intros Hlen. split; [done|]. apply IH. lia.
      * intros [_ Hnd]. f_equal. by apply IH.
Qed.

Lemma truthy_spec s : truthy s = true ↔ s ≠ "".
Proof. unfold truthy. by rewrite bool_decide_eq_true. Qed.

Lemma reserved_spec key :
  reserved key = true ↔ key ∈ ["id"; "created_at"; "updated_at"].
Proof.
  unfold reserved. rewrite !orb_true_iff, !bool_decide_eq_true.
  rewrite !elem_of_cons, elem_of_nil. tauto.
Qed.

Lemma forallb_Forall {A} (f : A → bool) (P : A → Prop) (l : list A) :
  (∀ x, f x = true ↔ P x) → forallb f l = true ↔ Forall P l.
Proof.
  intros Hf. induction l as [|x l IH]; simpl.
  - split; [constructor | done].
  - rewrite andb_true_iff, Forall_cons, IH, Hf. done.
Qed.

Lemma existsb_false_Forall {A} (f : A → bool) (P : A → Prop) (l : list A) :
  (∀ x, f x = true ↔ P x) → existsb f l = false ↔ Forall (λ x, ¬ P x) l.
Proof.
  intros Hf. induction l as [|x l IH]; simpl.
  - split; [constructor | done].
  - rewrite orb_false_iff, Forall_cons, IH, <- Hf, not_true_iff_false. done.
Qed.

(** Every exception that [validate] throws is the [BadRequestError]. *)
Lemma validate_throws COLUMN_MAP t e :
  validate COLUMN_MAP t = inl e → e = AppErr (BadRequestError "").
Proof.
  unfold validate, API_RULES, forEach.
  repeat case_match; intros; simplify_eq; reflexivity.
Qed.

Local Ltac reject :=
  split; [discriminate | intuition (discriminate || congruence || lia)].

Lemma validate_ok_iff COLUMN_MAP t :
  validate COLUMN_MAP t = inr tt ↔ invariants COLUMN_MAP t.
Proof.
  unfold validate, invariants, API_RULES, forEach.
  rewrite !Forall_cons, Forall_nil.
  assert (Hcols : columns t ≠ [] ↔ length (columns t) ≠ 0).
  { destruct (columns t); simpl; split; intros ?; done || lia. }
  assert (Hall : Forall (λ c, col_id c ≠ "" ∧ col_name c ≠ "" ∧ col_type c ≠ "") (columns t)
           ↔ forallb (λ column, truthy (col_id column)) (columns t) = true
             ∧ forallb (λ column, truthy (col_name column)) (columns t) = true
             ∧ forallb (λ column, truthy (col_type column)) (columns t) = true).
  { clear. induction (columns t) as [|c cs IH]; simpl.
    - rewrite Forall_nil. tauto.
    - rewrite Forall_cons, IH, !andb_true_iff, !truthy_spec. tauto. }
  rewrite Hcols, Hall.
  rewrite <- (forallb_Forall (λ column, isValidType COLUMN_MAP (col_type column)))
    by (intros c; unfold isValidType; apply bool_decide_eq_true).
  rewrite <- (existsb_false_Forall (λ column, reserved (col_name column)))
    by (intros c; apply reserved_spec).
  rewrite <- remove_dups_length_NoDup, length_fmap.
  rewrite <- !truthy_spec.
  destruct (truthy (tbl_id t)); simpl; [|reject].
  destruct (truthy (tbl_name t)); simpl; [|reject].
  case_bool_decide as Hlen; [reject|].
  destruct (forallb (λ column, truthy (col_id column)) _); simpl; [|reject].
  destruct (forallb (λ column, truthy (col_name column)) _); simpl; [|reject].
  destruct (forallb (λ column, truthy (col_type column)) _); simpl; [|reject].
  destruct (forallb (λ column, isValidType _ _) _); simpl; [|reject].
  destruct (existsb _ _); simpl; [reject|].
  case_bool_decide as Hdup; simpl; [|reject].
  repeat (case_bool_decide; simpl; [|reject]).
  intuition.
Qed.

(** The negative cases of the specification, one per invariant. *)
Example validate_accepts_seals :
  validate sample_COLUMN_MAP seals_v1 = inr tt
  ∧ validate sample_COLUMN_MAP seals_v2 = inr tt.
Proof. split; reflexivity. Qed.

Example validate_rejects :
  let rejected t := validate sample_COLUMN_MAP t = inl (AppErr (BadRequestError "")) in
  rejected (seals []) ∧
  rejected (seals [mkColumn "C1" "age" "int"; mkColumn "C2" "age" "float"]) ∧
  rejected (seals [mkColumn "C1" "created_at" "text"]) ∧
  rejected (seals [mkColumn "C1" "age" "integer"]) ∧
  rejected (seals [mkColumn "" "age" "int"]) ∧
  rejected (seals [mkColumn "C1" "" "int"]) ∧
  rejected (seals [mkColumn "C1" "age" ""]) ∧
  rejected (mkTable "" "seals" (columns seals_v1)
              "public" "public" "public" "public" "public") ∧
  rejected (mkTable "T1" "" (columns seals_v1)
              "public" "public" "public" "public" "public") ∧
  rejected (mkTable "T1" "seals" (columns seals_v1)
              "public" "public" "everyone" "public" "public").
Proof. cbv zeta. split_and!; reflexivity. Qed.

(** The scenario of the specification: two columns named [age]; the
    constructor throws and no table is returned. *)
Example Table_new_rejects_duplicate_names :
  @Table_new sample_JSON sample_uuid sample_COLUMN_MAP
    (mkTableArgs None (Some "seals")
       (Some (inl [mkColumnArgs None (Some "age") (Some "int") None;
                   mkColumnArgs None (Some "age") (Some "float") None]))
       None None None None None) 0
  = (inl (AppErr (BadRequestError "")), 3).
Proof. reflexivity. Qed.

(** C2.  [validate()] returns normally exactly when the table satisfies the
    invariant set (non-empty id and name, at least one column, every column
    with non-empty id, name and type, every type in the registry, no
    reserved column name, pairwise distinct column names, the five rules
    among the allowed values); otherwise it throws the [BadRequestError];
    and the constructor runs this check on the object it has assembled,
    returning the object only when the check passes. *)
Theorem validate_succeeds_iff_invariants `{JSON} (uuid : nat → string)
    (COLUMN_MAP : gmap string ColumnType) :
  (∀ t, validate COLUMN_MAP t = inr tt ↔ invariants COLUMN_MAP t) ∧
  (∀ t, ¬ invariants COLUMN_MAP t →
        ∃ msg, validate COLUMN_MAP t = inl (AppErr (BadRequestError msg))) ∧
  (∀ a n, Table_new uuid COLUMN_MAP a n =
          match Table_assign uuid a n with
          | (inr this, n') =>
              (match validate COLUMN_MAP this with
               | inr _ => inr this
               | inl e => inl e
               end, n')
          | (inl e, n') => (inl e, n')
          end).
Proof.
  split; [apply validate_ok_iff|]. split.
  - intros t Hinv. exists "".
    destruct (validate COLUMN_MAP t) as [e|[]] eqn:Hv.
    + by rewrite (validate_throws _ _ _ Hv).
    + by apply validate_ok_iff in Hv.
  - intros a n. unfold Table_new, mbind, M_bind, lift, mret, M_ret.
    destruct (Table_assign uuid a n) as [[e|this] n']; [done|].
    by destruct (validate COLUMN_MAP this).
Qed.

(** ** The update migration *)

Section BodyFacts.

Context `{DAO}.

Lemma bind_run {S A B} (p : M S A) (k : A → M S B) s :
  (p ≫= k) s = match p s with
               | (inr a, s') => k a s'
               | (inl e, s') => (inl e, s')
               end.
Proof. reflexivity. Qed.

Lemma bind_congr {S A B} (p p' : M S A) (k k' : A → M S B) :
  (∀ s, p s = p' s) → (∀ a s, k a s = k' a s) → ∀ s, (p ≫= k) s = (p' ≫= k') s.
Proof.
  intros Hp Hk s. rewrite !bind_run, Hp.
  destruct (p' s) as [[e|a] s']; [done | apply Hk].
Qed.

Lemma for_of_app {S A} (xs ys : list A) (body : A → M S unit) s :
  for_of (xs ++ ys) body s = (for_of xs body;; for_of ys body) s.
Proof.
  revert s. induction xs as [|x xs IH]; intros s; simpl; [done|].
  rewrite !bind_run. destruct (body x s) as [[e|[]] s']; [done|].
  rewrite IH. by rewrite bind_run.
Qed.

Lemma exec_calls_nil db : exec_calls [] db = (inr tt, db).
Proof. reflexivity. Qed.

Lemma exec_calls_singleton c db : exec_calls [c] db = dao c db.
Proof.
  unfold exec_calls; simpl. rewrite bind_run.
  by destruct (dao c db) as [[e|[]] db'].
Qed.

Lemma exec_calls_app cs1 cs2 db :
  exec_calls (cs1 ++ cs2) db = (exec_calls cs1;; exec_calls cs2) db.
Proof. apply for_of_app. Qed.

(** A loop whose body makes the calls [f x] makes the calls of all its
    iterations, in the order of the array. *)
Lemma for_of_exec {A} (xs : list A) (body : A → M DB unit) (f : A → list DaoCall) :
  (∀ x db, body x db = exec_calls (f x) db) →
  ∀ db, for_of xs body db = exec_calls (xs ≫= f) db.
Proof.
  intros Hbody. induction xs as [|x xs IH]; intros db; simpl; [done|].
  rewrite exec_calls_app. apply bind_congr; [apply Hbody | intros _; apply IH].
Qed.

Lemma find_ext {A} (f g : A → bool) (l : list A) :
  (∀ x, f x = g x) → find f l = find g l.
Proof. intros Hfg. induction l as [|x l IH]; simpl; [done|]. by rewrite Hfg, IH. Qed.

Lemma find_id_Some cols i c : find_id cols i = Some c → c ∈ cols ∧ col_id c = i.
Proof.
  unfold find_id. induction cols as [|x cols IH]; simpl; [done|].
  case_bool_decide as Hx.
  - intros [= <-]. split; [left | done].
  - intros Hc. destruct (IH Hc). split; [by right | done].
Qed.

Lemma find_id_None cols i : find_id cols i = None ↔ i ∉ col_id <$> cols.
Proof.
  unfold find_id. induction cols as [|x cols IH]; simpl.
  - split; [intros _; apply not_elem_of_nil | done].
  - rewrite not_elem_of_cons. case_bool_decide as Hx.
    + split; [done | intros [Hne _]; by destruct Hne].
    + rewrite IH. split; [by intros ? | by intros [_ ?]].
Qed.

(** Step 1 of the template makes the calls of [drops_spec]. *)
Lemma drop_loop_calls (oldTable : Table) (oldColumns newColumns : list Column) db :
  for_of oldColumns (λ oldColumn,
    match find (λ newColumn, bool_decide (col_id oldColumn = col_id newColumn)) newColumns with
    | Some _ => mret tt
    | None => dao (dropColumn (tbl_name oldTable) (col_name oldColumn))
    end) db
  = exec_calls ((λ c, dropColumn (tbl_name oldTable) (col_name c))
                  <$> filter (λ c, col_id c ∉ col_id <$> newColumns) oldColumns) db.
Proof.
  revert db. induction oldColumns as [|c cs IH]; intros db; [done|].
  rewrite filter_cons. cbn [for_of].
  rewrite (find_ext _ (λ x, bool_decide (col_id x = col_id c))) by
    (intros x; apply bool_decide_ext; naive_solver).
  fold (find_id newColumns (col_id c)).
  destruct (find_id newColumns (col_id c)) as [m|] eqn:Hfind.
  - rewrite decide_False.
    + rewrite bind_run. cbn. apply IH.
    + intros Hnot. by apply find_id_None in Hnot; rewrite Hnot in Hfind.
  - rewrite decide_True by by apply find_id_None.
    rewrite fmap_cons. change (?x :: ?l) with ([x] ++ l).
    rewrite exec_calls_app. apply bind_congr; [|intros _; apply IH].
    intros db'. by rewrite exec_calls_singleton.
Qed.

(** One iteration of step 2 makes the calls of [add_or_rename_spec]. *)
Lemma add_or_rename_calls (oldTable : Table) (oldColumns : list Column)
    (newColumn : Column) db :
  (let match_ :=
     find (λ oldColumn, bool_decide (col_id oldColumn = col_id newColumn)) oldColumns in
   when (negb (bool_decide (is_Some match_)))
     (dao (addColumn (tbl_name oldTable) newColumn));;
   match match_ with
   | Some m =>
       when (bool_decide (col_name m ≠ col_name newColumn))
         (dao (renameColumn (tbl_name oldTable) (col_name m) (col_name newColumn)))
   | None => mret tt
   end) db
  = exec_calls
      (match find_id oldColumns (col_id newColumn) with
       | None => [addColumn (tbl_name oldTable) newColumn]
       | Some m =>
           if decide (col_name m = col_name newColumn) then []
           else [renameColumn (tbl_name oldTable) (col_name m) (col_name newColumn)]
       end) db.
Proof.
  cbv zeta. fold (find_id oldColumns (col_id newColumn)).
  destruct (find_id oldColumns (col_id newColumn)) as [m|].
  - rewrite (bool_decide_eq_true_2 (is_Some (Some m))) by eauto.
    rewrite bind_run. cbn.
    case_bool_decide as Hn.
    + rewrite decide_False by done. by rewrite exec_calls_singleton.
    + rewrite decide_True by (by destruct (decide (col_name m = col_name newColumn))).
      done.
  - rewrite (bool_decide_eq_false_2 (is_Some None)) by (by intros [? ?]).
    rewrite exec_calls_singleton, bind_run. cbn.
    by destruct (dao _ db) as [[e|[]] db'].
Qed.

(** The structural steps make the calls of [diff_spec]. *)
Lemma diff_body_calls (oldTable newTable : Table) db :
  diff_body oldTable newTable (getColumns oldTable) (getColumns newTable) db
  = exec_calls (diff_spec oldTable newTable) db.
Proof.
  unfold diff_body, diff_spec, getColumns.
  rewrite exec_calls_app.
  apply bind_congr; [apply drop_loop_calls | intros _ db1].
  rewrite exec_calls_app.
  apply bind_congr; [|intros _ db2].
  - intros db2. unfold adds_renames_spec.
    apply for_of_exec. intros c db3. apply add_or_rename_calls.
  - unfold rename_table_spec. case_bool_decide as Hn.
    + rewrite decide_False by done. by rewrite exec_calls_singleton.
    + rewrite decide_True by (by destruct (decide (tbl_name oldTable = tbl_name newTable))).
      done.
Qed.

End BodyFacts.

Lemma exec_calls_recorder (cs j : list DaoCall) :
  @exec_calls recorder cs (@mkDB recorder tt j) = (inr tt, @mkDB recorder tt (j ++ cs)).
Proof.
  revert j. induction cs as [|c cs IH]; intros j.
  - by rewrite app_nil_r.
  - unfold exec_calls in *. cbn [for_of]. rewrite bind_run. cbn.
    rewrite IH. by rewrite <- app_assoc.
Qed.

Lemma calls_of_exec_calls (p : M (@DB recorder) unit) (cs : list DaoCall) :
  (∀ db, p db = @exec_calls recorder cs db) → calls_of p = cs.
Proof. intros Hp. unfold calls_of. by rewrite Hp, exec_calls_recorder. Qed.

(** The operation sequence of the source is the one the specification
    describes. *)
Lemma diff_is_diff_spec (oldTable newTable : Table) :
  diff oldTable newTable = diff_spec oldTable newTable.
Proof. apply calls_of_exec_calls. intros db. apply diff_body_calls. Qed.

Lemma update_body_calls `{DAO} `{JSON} (oldTable newTable : Table) db :
  update_body oldTable newTable (getColumns oldTable) (getColumns newTable)
    (metaRow newTable) db
  = exec_calls (forward_spec oldTable newTable) db.
Proof.
  unfold update_body, forward_spec. rewrite exec_calls_app.
  apply bind_congr; [apply diff_body_calls | intros _ db1].
  by rewrite exec_calls_singleton.
Qed.

(** A run that returns normally has made all its calls, in order. *)
Lemma exec_calls_journal `{DAO} (cs : list DaoCall) db db' :
  exec_calls cs db = (inr tt, db') → journal db' = journal db ++ cs.
Proof.
  revert db. induction cs as [|c cs IH]; intros db.
  - intros [= <-]. by rewrite app_nil_r.
  - unfold exec_calls in *. cbn [for_of]. rewrite bind_run. unfold dao at 1.
    destruct (dao_exec c (store db)) as [s'|]; [|done].
    intros Hrun. apply IH in Hrun. rewrite Hrun. cbn. by rewrite <- app_assoc.
Qed.

(** ** Symmetry of the diff *)

Section Symmetry.

Implicit Types (c m : Column) (cols others : list Column).

Lemma bind_split {A B} (f g : A → list B) (l : list A) :
  l ≫= (λ x, f x ++ g x) ≡ₚ (l ≫= f) ++ (l ≫= g).
Proof.
  induction l as [|x l IH]; [done|].
  rewrite !bind_cons, IH, <- !app_assoc. f_equiv.
  rewrite !app_assoc. f_equiv. apply Permutation_app_comm.
Qed.

Lemma bind_add_part others mk cols :
  cols ≫= add_part others mk = mk <$> unmatched others cols.
Proof.
  unfold unmatched. induction cols as [|c cols IH]; [done|].
  rewrite bind_cons, filter_cons, IH. unfold add_part at 1.
  destruct (find_id others (col_id c)) as [m|] eqn:Hfind.
  - rewrite decide_False; [done|].
    intros Hnot. apply find_id_None in Hnot. congruence.
  - rewrite decide_True by (by apply find_id_None). done.
Qed.

Lemma add_or_rename_split oldTable c :
  add_or_rename_spec oldTable c
  = add_part (columns oldTable) (addColumn (tbl_name oldTable)) c
    ++ rename_part (columns oldTable)
         (λ m c, renameColumn (tbl_name oldTable) (col_name m) (col_name c)) c.
Proof.
  unfold add_or_rename_spec, add_part, rename_part.
  by destruct (find_id (columns oldTable) (col_id c)).
Qed.

(** In a column list with distinct ids, a column is found by its id. *)
Lemma find_id_NoDup cols c :
  NoDup (col_id <$> cols) → c ∈ cols → find_id cols (col_id c) = Some c.
Proof.
  unfold find_id. induction cols as [|x cols IH]; simpl.
  - intros _ Hc. by apply elem_of_nil in Hc.
  - rewrite NoDup_cons, elem_of_cons. intros [Hx Hnd] [->|Hc].
    + by rewrite bool_decide_eq_true_2.
    + rewrite bool_decide_eq_false_2; [by apply IH|].
      intros Heq. apply Hx. rewrite Heq. by apply list_elem_of_fmap_2.
Qed.

(** In a table with distinct column names, a column is found by its name. *)
Lemma getColumnByName_NoDup t c :
  NoDup (col_name <$> columns t) → c ∈ columns t →
  getColumnByName t (col_name c) = Some c.
Proof.
  unfold getColumnByName. induction (columns t) as [|x cols IH]; simpl.
  - intros _ Hc. by apply elem_of_nil in Hc.
  - rewrite NoDup_cons, elem_of_cons. intros [Hx Hnd] [->|Hc].
    + by rewrite bool_decide_eq_true_2.
    + rewrite bool_decide_eq_false_2; [by apply IH|].
      intros Heq. apply Hx. rewrite Heq. by apply list_elem_of_fmap_2.
Qed.

Lemma NoDup_fmap_elem_inj {A B} (f : A → B) (l : list A) x y :
  NoDup (f <$> l) → x ∈ l → y ∈ l → f x = f y → x = y.
Proof.
  induction l as [|z l IH]; simpl.
  - intros _ Hx. by apply elem_of_nil in Hx.
  - rewrite NoDup_cons, !elem_of_cons. intros [Hz Hnd] [->|Hx] [->|Hy] Heq.
    + done.
    + destruct Hz. eapply list_elem_of_fmap_2'; [eassumption | congruence].
    + destruct Hz. eapply list_elem_of_fmap_2'; [eassumption | congruence].
    + by apply IH.
Qed.

(** With distinct ids on both sides, matching by id is symmetric. *)
Lemma find_id_sym cols others c m :
  NoDup (col_id <$> cols) → NoDup (col_id <$> others) →
  c ∈ cols ∧ find_id others (col_id c) = Some m ↔
  m ∈ others ∧ find_id cols (col_id m) = Some c.
Proof.
  intros Hcols Hothers. split.
  - intros [Hc [Hm Hid]%find_id_Some]. split; [done|].
    rewrite Hid. by apply find_id_NoDup.
  - intros [Hm [Hc Hid]%find_id_Some]. split; [done|].
    rewrite Hid. by apply find_id_NoDup.
Qed.

Lemma elem_of_rename_part_bind others mk cols (op : DaoCall) :
  op ∈ cols ≫= rename_part others mk ↔
  ∃ c m, c ∈ cols ∧ find_id others (col_id c) = Some m
         ∧ col_name m ≠ col_name c ∧ op = mk m c.
Proof.
  rewrite list_elem_of_bind. unfold rename_part. split.
  - intros (c & Hop & Hc). destruct (find_id others (col_id c)) as [m|] eqn:Hf.
    + destruct (decide (col_name m = col_name c)).
      * by apply elem_of_nil in Hop.
      * apply list_elem_of_singleton in Hop. eauto 10.
    + by apply elem_of_nil in Hop.
  - intros (c & m & Hc & Hf & Hn & ->). exists c. rewrite Hf.
    rewrite decide_False by done. split; [apply list_elem_of_singleton|]; done.
Qed.

Lemma NoDup_rename_part_bind others mk cols :
  NoDup cols →
  (∀ c c' m m', c ∈ cols → c' ∈ cols → mk m c = mk m' c' → c = c') →
  NoDup (cols ≫= rename_part others mk).
Proof.
  intros Hnd Hinj. apply NoDup_bind; [|intros c _|done].
  - intros c c' op Hc Hc'. unfold rename_part.
    destruct (find_id others (col_id c)) as [m|]; [|by intros ?%elem_of_nil].
    destruct (find_id others (col_id c')) as [m'|]; [|by intros _ ?%elem_of_nil].
    destruct (decide (col_name m = col_name c)); [by intros ?%elem_of_nil|].
    destruct (decide (col_name m' = col_name c')); [by intros _ ?%elem_of_nil|].
    intros ->%list_elem_of_singleton Heq%list_elem_of_singleton. eauto.
  - unfold rename_part. destruct (find_id others (col_id c)) as [m|].
    + destruct (decide _); [constructor | apply NoDup_singleton].
    + constructor.
Qed.

End Symmetry.

Lemma Forall2_diag {A B C} (P : B → C → Prop) (f : A → B) (g : A → C) (l : list A) :
  (∀ x, x ∈ l → P (f x) (g x)) → Forall2 P (f <$> l) (g <$> l).
Proof.
  induction l as [|x l IH]; intros HP; csimpl; constructor.
  - apply HP. left.
  - apply IH. intros y Hy. apply HP. by right.
Qed.

Lemma invert_diff_spec (oldTable newTable : Table) :
  NoDup (col_name <$> columns oldTable) →
  mapM (invert oldTable newTable) (diff_spec oldTable newTable)
  = Some (inverse_spec oldTable newTable).
Proof.
  intros Hnames. apply mapM_Some. unfold diff_spec, inverse_spec.
  apply Forall2_app; [|apply Forall2_app].
  - unfold drops_spec. apply Forall2_diag. intros c [_ Hc]%list_elem_of_filter.
    cbn. by rewrite getColumnByName_NoDup.
  - unfold adds_renames_spec. apply Forall2_bind.
    rewrite <- (list_fmap_id (columns newTable)). apply Forall2_diag.
    intros c _. rewrite add_or_rename_split. unfold add_part, rename_part. cbn.
    destruct (find_id (columns oldTable) (col_id c)) as [m|]; cbn.
    + destruct (decide _); repeat constructor.
    + repeat constructor.
  - unfold rename_table_spec.
    destruct (decide (tbl_name oldTable = tbl_name newTable)) as [Heq|Hne].
    + rewrite decide_True by done. constructor.
    + rewrite decide_False by (by intros ?). repeat constructor.
Qed.

Lemma renames_symmetric (oldTable newTable : Table) :
  NoDup (col_name <$> columns oldTable) → NoDup (col_name <$> columns newTable) →
  NoDup (col_id <$> columns oldTable) → NoDup (col_id <$> columns newTable) →
  columns oldTable ≫= rename_part (columns newTable)
    (λ m c, renameColumn (tbl_name newTable) (col_name m) (col_name c))
  ≡ₚ columns newTable ≫= rename_part (columns oldTable)
       (λ m c, renameColumn (tbl_name newTable) (col_name c) (col_name m)).
Proof.
  intros Hno Hnn Hio Hin. apply NoDup_Permutation.
  - apply NoDup_rename_part_bind; [by eapply NoDup_fmap_1|].
    intros c c' m m' Hc Hc' [= _ Heq].
    by apply (NoDup_fmap_elem_inj col_name (columns oldTable)).
  - apply NoDup_rename_part_bind; [by eapply NoDup_fmap_1|].
    intros c c' m m' Hc Hc' [= Heq _].
    by apply (NoDup_fmap_elem_inj col_name (columns newTable)).
  - intros op. rewrite !elem_of_rename_part_bind. split.
    + intros (c & m & Hc & Hf & Hn & ->). exists m, c.
      destruct (proj1 (find_id_sym _ _ c m Hio Hin) (conj Hc Hf)) as [? ?].
      split_and!; [done | done | by intros ? | done].
    + intros (c & m & Hc & Hf & Hn & ->). exists m, c.
      destruct (proj1 (find_id_sym _ _ c m Hin Hio) (conj Hc Hf)) as [? ?].
      split_and!; [done | done | by intros ? | done].
Qed.

(** With distinct column names and ids in both revisions, the diff in the
    other direction is the inverted diff, up to order. *)
Lemma diff_spec_symmetric (oldTable newTable : Table) :
  NoDup (col_name <$> columns oldTable) → NoDup (col_name <$> columns newTable) →
  NoDup (col_id <$> columns oldTable) → NoDup (col_id <$> columns newTable) →
  diff_spec newTable oldTable ≡ₚ inverse_spec oldTable newTable.
Proof.
  intros Hno Hnn Hio Hin. unfold diff_spec, inverse_spec.
  rewrite !app_assoc. f_equiv.
  unfold adds_renames_spec.
  rewrite (list_bind_ext _ _ (columns oldTable) (columns oldTable)
             (add_or_rename_split newTable) eq_refl).
  rewrite !bind_split, !bind_add_part.
  rewrite (renames_symmetric oldTable newTable) by done.
  unfold drops_spec. fold (unmatched (columns oldTable) (columns newTable)).
  rewrite !app_assoc. f_equiv. apply Permutation_app_comm.
Qed.

Example seals_scenario_diff :
  diff seals_v1 seals_v2
  = [renameColumn "seals" "age" "years";
     addColumn "seals" (mkColumn "C2" "weight" "float")]
  ∧ diff seals_v2 seals_v1
    = [dropColumn "seals" "weight"; renameColumn "seals" "years" "age"].
Proof. split; reflexivity. Qed.

Example seals_dup_diff :
  diff seals_v1 seals_dup = [renameColumn "seals" "age" "years"]
  ∧ diff seals_dup seals_v1 = [].
Proof. split; reflexivity. Qed.

(** C1 (amended).  For two revisions that pass [validate()], share the
    table id and have pairwise distinct column ids each: the [down]
    function of the update migration is the [up] function of the update in
    the other direction, the calls it makes are [diff newTable oldTable]
    followed by the catalog write of the old row, and
    [diff newTable oldTable] is, as a multiset, the inverse of
    [diff oldTable newTable] taken operation by operation. *)
Theorem diff_symmetric `{JSON} (COLUMN_MAP : gmap string ColumnType)
    (oldTable newTable : Table) :
  validate COLUMN_MAP oldTable = inr tt →
  validate COLUMN_MAP newTable = inr tt →
  tbl_id oldTable = tbl_id newTable →
  NoDup (col_id <$> columns oldTable) →
  NoDup (col_id <$> columns newTable) →
  down (update_template oldTable newTable) = up (update_template newTable oldTable) ∧
  calls_of (@run_script recorder (down (update_template oldTable newTable)))
    = diff newTable oldTable ++ [updateTableMetaData (metaRow oldTable)] ∧
  ∃ inverse,
    mapM (invert oldTable newTable) (diff oldTable newTable) = Some inverse ∧
    diff newTable oldTable ≡ₚ inverse.
Proof.
  intros Hold Hnew _ Hio Hin.
  apply validate_ok_iff in Hold as (_ & _ & _ & _ & _ & _ & Hno & _).
  apply validate_ok_iff in Hnew as (_ & _ & _ & _ & _ & _ & Hnn & _).
  split; [done|]. split.
  - rewrite diff_is_diff_spec. apply calls_of_exec_calls. intros db.
    apply (@update_body_calls recorder).
  - exists (inverse_spec oldTable newTable). rewrite !diff_is_diff_spec.
    split; [by apply invert_diff_spec | by apply diff_spec_symmetric].
Qed.

Lemma diff_symmetric_witness :
  down (@update_template sample_JSON seals_v1 seals_v2)
    = up (@update_template sample_JSON seals_v2 seals_v1) ∧
  calls_of (@run_script recorder (down (@update_template sample_JSON seals_v1 seals_v2)))
    = diff seals_v2 seals_v1 ++ [updateTableMetaData (@metaRow sample_JSON seals_v1)] ∧
  ∃ inverse,
    mapM (invert seals_v1 seals_v2) (diff seals_v1 seals_v2) = Some inverse ∧
    diff seals_v2 seals_v1 ≡ₚ inverse.
Proof.
  apply (@diff_symmetric sample_JSON sample_COLUMN_MAP seals_v1 seals_v2).
  - vm_compute; reflexivity.
  - vm_compute; reflexivity.
  - reflexivity.
  - refine (bool_decide_unpack _ _). vm_compute. exact I.
  - refine (bool_decide_unpack _ _). vm_compute. exact I.
Defined.

(** C1 as stated fails: both revisions pass [validate()] and share the
    table id, the forward diff renames [age] to [years], the backward diff
    is empty. *)
Lemma diff_not_symmetric_duplicate_ids :
  validate sample_COLUMN_MAP seals_v1 = inr tt ∧
  validate sample_COLUMN_MAP seals_dup = inr tt ∧
  tbl_id seals_v1 = tbl_id seals_dup ∧
  diff seals_v1 seals_dup = [renameColumn "seals" "age" "years"] ∧
  diff seals_dup seals_v1 = [] ∧
  ¬ ∃ inverse,
      mapM (invert seals_v1 seals_dup) (diff seals_v1 seals_dup) = Some inverse ∧
      diff seals_dup seals_v1 ≡ₚ inverse.
Proof.
  split_and!; [by vm_compute | by vm_compute | done | done | done |].
  intros (inverse & Hinv & Hperm).
  vm_compute in Hinv. injection Hinv as <-.
  apply Permutation_length in Hperm. vm_compute in Hperm. discriminate.
Qed.

(** ** The operations of one column *)

Lemma getColumnById_find_id t i : getColumnById t i = find_id (columns t) i.
Proof. unfold getColumnById, find_id. by destruct (find _ _). Qed.

Lemma filter_id_NoDup (cols : list Column) (i : string) :
  NoDup (col_id <$> cols) →
  filter (λ c, col_id c = i) cols = option_list (find_id cols i).
Proof.
  unfold find_id. induction cols as [|x cols IH]; [done|].
  rewrite fmap_cons, NoDup_cons, filter_cons. intros [Hx Hnd]. simpl.
  case_bool_decide as Hi.
  - rewrite decide_True by done. f_equal. rewrite IH by done.
    destruct (find _ cols) as [c|] eqn:Hf; [|done].
    apply (find_id_Some cols i c) in Hf as [Hc Hci]. destruct Hx.
    rewrite Hi, <- Hci. by apply list_elem_of_fmap_2.
  - rewrite decide_False by done. by apply IH.
Qed.

Lemma filter_fmap_column {A} (P : DaoCall → Prop) `{∀ op, Decision (P op)}
    (Q : A → Prop) `{∀ x, Decision (Q x)} (g : A → DaoCall) (l : list A) :
  (∀ x, x ∈ l → P (g x) ↔ Q x) → filter P (g <$> l) = g <$> filter Q l.
Proof.
  induction l as [|x l IH]; intros HPQ; [done|].
  rewrite fmap_cons, !filter_cons, IH by (intros y Hy; apply HPQ; by right).
  destruct (decide (Q x)) as [HQ|HQ].
  - rewrite decide_True by (apply HPQ; [left | done]). done.
  - rewrite decide_False by (rewrite HPQ; [done | left]). done.
Qed.

Lemma filter_bind_column {A} (P : DaoCall → Prop) `{∀ op, Decision (P op)}
    (Q : A → Prop) `{∀ x, Decision (Q x)} (f : A → list DaoCall) (l : list A) :
  (∀ x op, x ∈ l → op ∈ f x → P op ↔ Q x) →
  filter P (l ≫= f) = filter Q l ≫= f.
Proof.
  induction l as [|x l IH]; intros HPQ; [done|].
  rewrite bind_cons, filter_app, filter_cons,
    IH by (intros y op Hy; apply HPQ; by right).
  assert (Hx : ∀ op, op ∈ f x → P op ↔ Q x) by (intros op; apply HPQ; left).
  destruct (decide (Q x)) as [HQ|HQ].
  - rewrite bind_cons. f_equal.
    clear -Hx HQ. induction (f x) as [|op ops IHops]; [done|].
    rewrite filter_cons, decide_True by (apply Hx; [left | done]).
    f_equal. apply IHops. intros op' Hop'. apply Hx. by right.
  - rewrite <- (app_nil_l (filter Q l ≫= f)) at 2. f_equal.
    clear -Hx HQ. induction (f x) as [|op ops IHops]; [done|].
    rewrite filter_cons, decide_False by (rewrite Hx; [done | left]).
    apply IHops. intros op' Hop'. apply Hx. by right.
Qed.

Lemma ops_on_spec (oldTable newTable : Table) (i : string) :
  NoDup (col_name <$> columns oldTable) →
  NoDup (col_id <$> columns oldTable) →
  NoDup (col_id <$> columns newTable) →
  ops_on oldTable newTable i
  = ((λ c, dropColumn (tbl_name oldTable) (col_name c))
       <$> filter (λ c, col_id c ∉ col_id <$> columns newTable)
             (option_list (find_id (columns oldTable) i)))
    ++ (option_list (find_id (columns newTable) i) ≫= add_or_rename_spec oldTable).
Proof.
  intros Hno Hio Hin. unfold ops_on. rewrite diff_is_diff_spec.
  unfold diff_spec. rewrite !filter_app.
  replace (filter _ (rename_table_spec oldTable newTable)) with (@nil DaoCall).
  2:{ unfold rename_table_spec. destruct (decide _); [done|].
      rewrite filter_cons, decide_False by done. done. }
  rewrite app_nil_r. f_equal.
  - unfold drops_spec.
    rewrite (filter_fmap_column _ (λ c, col_id c = i)).
    + f_equal. rewrite <- (filter_id_NoDup _ _ Hio).
      rewrite !list_filter_filter. apply list_filter_iff. tauto.
    + intros c [_ Hc]%list_elem_of_filter. cbn.
      rewrite getColumnByName_NoDup by done. cbn. split; congruence.
  - unfold adds_renames_spec.
    rewrite (filter_bind_column _ (λ c, col_id c = i)).
    + by rewrite filter_id_NoDup.
    + intros c op Hc. unfold add_or_rename_spec.
      destruct (find_id (columns oldTable) (col_id c)) as [m|] eqn:Hf.
      * apply find_id_Some in Hf as [Hm Hid].
        destruct (decide _); [by intros ?%elem_of_nil|].
        intros ->%list_elem_of_singleton. cbn.
        rewrite getColumnByName_NoDup by done. cbn. split; congruence.
      * intros ->%list_elem_of_singleton. cbn. split; congruence.
Qed.

(** C4 (amended).  For two revisions that pass [validate()], share the
    table id and have pairwise distinct column ids each, and for every
    column id: in both revisions with different names, the diff has exactly
    one operation on that column, the rename from the old to the new name;
    only in the new revision, exactly the add of the new column; only in
    the old revision, exactly the drop of the old column; in both with the
    same name, no operation, whatever the types are. *)
Theorem diff_per_column (COLUMN_MAP : gmap string ColumnType)
    (oldTable newTable : Table) (i : string) :
  validate COLUMN_MAP oldTable = inr tt →
  validate COLUMN_MAP newTable = inr tt →
  tbl_id oldTable = tbl_id newTable →
  NoDup (col_id <$> columns oldTable) →
  NoDup (col_id <$> columns newTable) →
  column_ops_correct oldTable newTable i.
Proof.
  intros Hold _ _ Hio Hin.
  apply validate_ok_iff in Hold as (_ & _ & _ & _ & _ & _ & Hno & _).
  unfold column_ops_correct. rewrite !getColumnById_find_id.
  rewrite (ops_on_spec _ _ _ Hno Hio Hin).
  destruct (find_id (columns oldTable) i) as [m|] eqn:Hm;
    destruct (find_id (columns newTable) i) as [c|] eqn:Hc;
    unfold option_list; cbn [option_rect].
  - apply find_id_Some in Hm as [Hm Hmi]. apply find_id_Some in Hc as [Hc Hci].
    rewrite filter_cons, decide_False.
    + rewrite bind_singleton. cbn. unfold add_or_rename_spec.
      rewrite Hci, <- Hmi, (find_id_NoDup _ _ Hio Hm). done.
    + intros Hnot. apply Hnot. rewrite Hmi, <- Hci. by apply list_elem_of_fmap_2.
  - apply find_id_Some in Hm as [Hm Hmi].
    rewrite filter_cons, decide_True; [done|].
    rewrite Hmi. by apply find_id_None.
  - apply find_id_Some in Hc as [Hc Hci].
    rewrite bind_singleton. cbn. unfold add_or_rename_spec. by rewrite Hci, Hm.
  - done.
Qed.

Lemma diff_per_column_witness :
  column_ops_correct seals_v1 seals_v2 "C1" ∧
  ops_on seals_v1 seals_v2 "C1" = [renameColumn "seals" "age" "years"] ∧
  column_ops_correct seals_v1 seals_v2 "C2" ∧
  ops_on seals_v1 seals_v2 "C2" = [addColumn "seals" (mkColumn "C2" "weight" "float")].
Proof.
  split_and!.
  - apply (diff_per_column sample_COLUMN_MAP seals_v1 seals_v2 "C1").
    + vm_compute; reflexivity.
    + vm_compute; reflexivity.
    + reflexivity.
    + refine (bool_decide_unpack _ _). vm_compute. exact I.
    + refine (bool_decide_unpack _ _). vm_compute. exact I.
  - vm_compute; reflexivity.
  - apply (diff_per_column sample_COLUMN_MAP seals_v1 seals_v2 "C2").
    + vm_compute; reflexivity.
    + vm_compute; reflexivity.
    + reflexivity.
    + refine (bool_decide_unpack _ _). vm_compute. exact I.
    + refine (bool_decide_unpack _ _). vm_compute. exact I.
  - vm_compute; reflexivity.
Defined.

(** C4 as stated fails: both revisions pass [validate()] and share the
    table id, the id [C2] occurs only in the new revision, and the diff
    has two add-column operations on it. *)
Lemma diff_per_column_duplicate_ids :
  validate sample_COLUMN_MAP seals_v1 = inr tt ∧
  validate sample_COLUMN_MAP seals_two_adds = inr tt ∧
  tbl_id seals_v1 = tbl_id seals_two_adds ∧
  getColumnById seals_v1 "C2" = None ∧
  ops_on seals_v1 seals_two_adds "C2"
    = [addColumn "seals" (mkColumn "C2" "weight" "float");
       addColumn "seals" (mkColumn "C2" "mass" "float")] ∧
  ¬ column_ops_correct seals_v1 seals_two_adds "C2".
Proof.
  split_and!; try (vm_compute; reflexivity).
  unfold column_ops_correct.
  replace (getColumnById seals_v1 "C2") with (@None Column) by reflexivity.
  replace (getColumnById seals_two_adds "C2")
    with (Some (mkColumn "C2" "weight" "float")) by reflexivity.
  replace (ops_on seals_v1 seals_two_adds "C2")
    with [addColumn "seals" (mkColumn "C2" "weight" "float");
          addColumn "seals" (mkColumn "C2" "mass" "float")] by (vm_compute; reflexivity).
  discriminate.
Qed.

(** ** The table paths *)

Section PathFacts.

Context `{DAO} `{JSON} `{!Engine}.

Lemma write_new_file (fs : list (Path * MigrationFile)) (n : string)
    (f : MigrationFile) :
  (∀ i p g, fs !! i = Some (p, g) → p.1 = i) →
  (λ g : Path * MigrationFile,
     if decide (g.1 = (length fs, n)) then ((length fs, n), f) else g)
    <$> (fs ++ [((length fs, n), mkMigrationFile Stub Stub)])
  = fs ++ [((length fs, n), f)].
Proof.
  intros Hfiles. rewrite fmap_app. f_equal.
  - apply list_eq. intros i. rewrite list_lookup_fmap.
    destruct (fs !! i) as [[p g]|] eqn:Hi; [|done]. cbn.
    rewrite decide_False; [done|].
    intros ->. apply Hfiles in Hi as Hp. cbn in Hp.
    apply lookup_lt_Some in Hi. lia.
  - cbn. by rewrite decide_True.
Qed.

Lemma apply_unit_run (n : string) (f : MigrationFile) (w : World) :
  wf_world w →
  apply_unit n f w
  = match migrate_up (next_handle w) (persisted w n f) with
    | (inr _, w') => (inr tt, released (next_handle w) w')
    | (inl e, w') => (inl e, w')
    end.
Proof.
  intros Hwf. unfold apply_unit.
  rewrite bind_run. change (getNewConnection w) with (new_DAO w). cbn [new_DAO].
  rewrite bind_run.
  cbn [migrate_make files database next_handle open_handles completed].
  rewrite bind_run.
  cbn [writeFileSync modify files database next_handle open_handles completed].
  match goal with
  | |- context [?g <$> (?a ++ ?b)] =>
      replace (g <$> (a ++ b)) with (files w ++ [((length (files w), n), f)])
        by (symmetry; apply write_new_file, Hwf)
  end.
  fold (persisted w n f).
  rewrite bind_run. by destruct (migrate_up _ _) as [[e|[]] w'].
Qed.

(** When no earlier file is pending, [migrate.up] runs the file that was
    just written, as its template means it when its text is read so. *)
Lemma migrate_up_persisted (h : nat) (n : string) (f : MigrationFile) (w : World) :
  completed w = length (files w) →
  well_read f = true →
  migrate_up h (persisted w n f)
  = match run_script (up f) (database w) with
    | (inr _, db') =>
        (inr tt, mkWorld db' (S (next_handle w)) ({[next_handle w]} ∪ open_handles w)
                   (files w ++ [((length (files w), n), f)]) (S (completed w)))
    | (inl e, db') =>
        (inl e, mkWorld db' (S (next_handle w)) ({[next_handle w]} ∪ open_handles w)
                  (files w ++ [((length (files w), n), f)]) (completed w))
    end.
Proof.
  intros Hc Hread. unfold migrate_up, persisted. cbn. rewrite Hc.
  rewrite lookup_app_r, Nat.sub_diag by done. cbn. rewrite Hread.
  by destruct (run_script (up f) (database w)) as [[e|[]] db'].
Qed.

Lemma update_template_well_read (this newTable : Table) :
  well_read (update_template this newTable) = true.
Proof. reflexivity. Qed.

Lemma create_template_well_read (this : Table) :
  well_read (create_template this) = verbatim (tbl_name this) && verbatim (tbl_id this).
Proof. reflexivity. Qed.

Lemma connected_wf (w : World) : wf_world w → wf_world (connected w).
Proof.
  intros [Hfiles Hopen]. split; cbn; [done|].
  intros h [->%elem_of_singleton|Hh%Hopen]%elem_of_union; lia.
Qed.

(** [create] first opens the connection of the DAO of its name check. *)
Lemma create_run (this : Table) (w : World) :
  create this w
  = if bool_decide (length (dao_findTableByName (store (database w)) (tbl_name this)) ≠ 0)
    then (inl (AppErr (BadRequestError "The table name already exists: ")), connected w)
    else apply_unit ("create_table_" +:+ tbl_name this) (create_template this)
           (connected w).
Proof.
  unfold create. rewrite bind_run. cbn [new_DAO]. fold (connected w).
  rewrite bind_run. cbn [findTableByName]. rewrite bind_run.
  cbn [connected database]. by case_bool_decide.
Qed.

Lemma drop_run (this : Table) (w : World) :
  drop this w = apply_unit ("drop_table_" +:+ tbl_name this) (drop_template this) w.
Proof. reflexivity. Qed.

Lemma updateTo_run (this newTable : Table) (w : World) :
  updateTo this newTable w
  = if bool_decide (tbl_id this ≠ tbl_id newTable)
    then (inl (AppErr (BadRequestError "Table ID cannot be changed.")), w)
    else apply_unit ("update_table_" +:+ tbl_name this)
           (update_template this newTable) w.
Proof.
  unfold updateTo, validateUpdateTo. rewrite bind_run. unfold lift.
  by case_bool_decide.
Qed.

(** [migrate.up] opens and closes no connection. *)
Lemma migrate_up_handles (h : nat) (w : World) :
  open_handles (migrate_up h w).2 = open_handles w.
Proof.
  unfold migrate_up. destruct (files w !! completed w) as [[p g]|]; [|done].
  by destruct ((if well_read g then run_script (up g) else other_js g) _)
    as [[e|[]] db'].
Qed.

Lemma fresh_handle_released (w : World) :
  wf_world w →
  ({[next_handle w]} ∪ open_handles w) ∖ {[next_handle w]} = open_handles w.
Proof.
  intros [_ Hopen]. apply set_eq. intros h.
  rewrite elem_of_difference, elem_of_union, elem_of_singleton.
  split; [tauto|]. intros Hh. split; [by right|].
  intros ->. apply Hopen in Hh. lia.
Qed.

(** When [migrate.up] throws, the exception leaves the path before
    [db.destroy()] and the handle stays open. *)
Lemma apply_unit_leaks (n : string) (f : MigrationFile) (w w' : World) (e : Exception) :
  wf_world w →
  migrate_up (next_handle w) (persisted w n f) = (inl e, w') →
  apply_unit n f w = (inl e, w') ∧ next_handle w ∈ open_handles w'.
Proof.
  intros Hwf Hup. rewrite apply_unit_run, Hup by done. split; [done|].
  unfold migrate_up in Hup.
  destruct (files (persisted w n f) !! completed (persisted w n f)) as [[p g]|];
    [|done].
  destruct ((if well_read g then run_script (up g) else other_js g) _)
    as [[e'|[]] db']; [|done].
  injection Hup as _ <-. cbn. by apply elem_of_union_l, elem_of_singleton.
Qed.

(** When [migrate.up] returns, the handle is closed. *)
Lemma apply_unit_releases (n : string) (f : MigrationFile) (w w' : World) :
  wf_world w →
  apply_unit n f w = (inr tt, w') → next_handle w ∉ open_handles w'.
Proof.
  intros Hwf. rewrite apply_unit_run by done.
  destruct (migrate_up _ _) as [[e|[]] w1]; [done|].
  intros [= <-]. cbn. intros [_ Hn]%elem_of_difference.
  apply Hn. by apply elem_of_singleton.
Qed.

End PathFacts.

Lemma sample_world_wf (s : SampleStore) : @wf_world sample_DAO (sample_world s).
Proof.
  split; cbn.
  - intros i p f Hi. by rewrite lookup_nil in Hi.
  - intros h Hh. by apply not_elem_of_empty in Hh.
Qed.

(** C3.  The [up] function of an update migration makes its calls in this
    order: a drop-column for every old column whose id is absent from the
    new table, in the old column order; then, in the new column order, an
    add-column for every new column whose id is absent from the old table
    and a rename-column for every column matched by id whose name changed;
    then a rename-table exactly when the table name changed; and last, in
    every case, the catalog write of the row that holds the id, the name
    and the rules of the new table and the JSON text of its columns.
    Running [up] is running that list call by call, whatever the store
    answers; when no call fails the calls made are exactly the list; and
    [updateTo], when the ids agree and no earlier migration is pending,
    leaves the store as running that list leaves it, the row written last
    being the one of the id of the table that is updated. *)
Theorem update_forward_order `{JSON} (oldTable newTable : Table) :
  forward_spec oldTable newTable
    = drops_spec oldTable newTable ++ adds_renames_spec oldTable newTable
        ++ rename_table_spec oldTable newTable
        ++ [updateTableMetaData
              (mkTableMetaRow (tbl_id newTable) (tbl_name newTable)
                 (JSON_stringify (columns newTable))
                 (getAllRule newTable) (getOneRule newTable) (createRule newTable)
                 (updateRule newTable) (deleteRule newTable))] ∧
  (∀ (D : DAO) (db : DB),
     run_script (up (update_template oldTable newTable)) db
     = exec_calls (forward_spec oldTable newTable) db) ∧
  (∀ (D : DAO) (db db' : DB),
     run_script (up (update_template oldTable newTable)) db = (inr tt, db') →
     journal db' = journal db ++ forward_spec oldTable newTable) ∧
  calls_of (@run_script recorder (up (update_template oldTable newTable)))
    = forward_spec oldTable newTable ∧
  (∀ (D : DAO) (E : Engine) (w : World),
     tbl_id oldTable = tbl_id newTable →
     wf_world w →
     completed w = length (files w) →
     database (updateTo oldTable newTable w).2
     = (exec_calls (forward_spec oldTable newTable) (database w)).2
     ∧ last (forward_spec oldTable newTable)
       = Some (updateTableMetaData
                 (mkTableMetaRow (tbl_id oldTable) (tbl_name newTable)
                    (JSON_stringify (columns newTable))
                    (getAllRule newTable) (getOneRule newTable) (createRule newTable)
                    (updateRule newTable) (deleteRule newTable)))).
Proof.
  split_and!.
  - unfold forward_spec, diff_spec. by rewrite <- !app_assoc.
  - intros D db. apply update_body_calls.
  - intros D db db' Hrun. apply exec_calls_journal.
    rewrite <- Hrun. symmetry. apply update_body_calls.
  - apply calls_of_exec_calls. intros db. apply (@update_body_calls recorder).
  - intros D E w Hid Hwf Hc. split.
    + rewrite updateTo_run, bool_decide_eq_false_2 by (by intros ?).
      rewrite apply_unit_run, migrate_up_persisted by done.
      change (run_script (up (update_template oldTable newTable)) (database w))
        with (update_body oldTable newTable (getColumns oldTable)
                (getColumns newTable) (metaRow newTable) (database w)).
      rewrite update_body_calls.
      by destruct (exec_calls _ (database w)) as [[e|[]] db'].
    + unfold forward_spec. rewrite last_snoc, Hid. reflexivity.
Qed.

(** C5.  [validateUpdateTo] throws exactly when the two table ids differ,
    and then it throws the [BadRequestError] (the code's transition
    error); with equal ids it returns whatever else differs, a changed
    column type included; and when it throws, [updateTo] ends with that
    exception in the world it started in: no connection, no file, no call
    on the store. *)
Theorem validateUpdateTo_only_checks_id `{DAO} `{JSON} `{!Engine} (oldTable newTable : Table) :
  ((∃ e, validateUpdateTo oldTable newTable = inl e)
     ↔ tbl_id oldTable ≠ tbl_id newTable) ∧
  (tbl_id oldTable ≠ tbl_id newTable →
     validateUpdateTo oldTable newTable
     = inl (AppErr (BadRequestError "Table ID cannot be changed."))) ∧
  (tbl_id oldTable = tbl_id newTable → validateUpdateTo oldTable newTable = inr tt) ∧
  (tbl_id oldTable ≠ tbl_id newTable →
     ∀ w, updateTo oldTable newTable w
          = (inl (AppErr (BadRequestError "Table ID cannot be changed.")), w)).
Proof.
  unfold validateUpdateTo. split_and!.
  - case_bool_decide; split; try done; [eauto | by intros [e ?]].
  - intros Hne. by rewrite bool_decide_eq_true_2.
  - intros Heq. by rewrite bool_decide_eq_false_2 by (by intros ?).
  - intros Hne w. by rewrite updateTo_run, bool_decide_eq_true_2.
Qed.

(** A revision that changes the type of the column [C1] and keeps the
    table id passes the transition check. *)
Example validateUpdateTo_type_change :
  validateUpdateTo seals_v1 (seals [mkColumn "C1" "age" "json"]) = inr tt.
Proof. reflexivity. Qed.

(** C6 (amended).  When [findTableByName] returns a row for the name,
    [create] throws the [BadRequestError] (the code's conflict error); the
    store, the migration directory and the runner are as they were, and
    the connection of the DAO of the name check is open.  When it returns
    none, [create] writes the migration whose [up] is [createTable] then
    [addTableMetaData] and whose [down] is [dropTable] then
    [deleteTableMetaData], and runs the next pending migration; when no
    earlier migration is pending and the name and the id of the table are
    read from the file as they were pasted, that is the [up] just written:
    [create] ends as [createTable] then [addTableMetaData], of the table
    and of its catalog row, end on the store. *)
Theorem create_conflict_or_apply `{DAO} `{JSON} `{!Engine} (this : Table) (w : World) :
  (dao_findTableByName (store (database w)) (tbl_name this) ≠ [] →
     create this w
     = (inl (AppErr (BadRequestError "The table name already exists: ")),
        mkWorld (database w) (S (next_handle w)) ({[next_handle w]} ∪ open_handles w)
          (files w) (completed w))) ∧
  create_template this
    = mkMigrationFile
        (CreateScript this
           (mkTableMetaRow (tbl_id this) (tbl_name this) (JSON_stringify (columns this))
              (getAllRule this) (getOneRule this) (createRule this)
              (updateRule this) (deleteRule this)))
        (DropScript (tbl_name this) (tbl_id this)) ∧
  (dao_findTableByName (store (database w)) (tbl_name this) = [] →
   wf_world w →
   completed w = length (files w) →
   verbatim (tbl_name this) = true →
   verbatim (tbl_id this) = true →
     create this w
     = match (dao (createTable this);;
              dao (addTableMetaData
                     (mkTableMetaRow (tbl_id this) (tbl_name this)
                        (JSON_stringify (columns this))
                        (getAllRule this) (getOneRule this) (createRule this)
                        (updateRule this) (deleteRule this))))
               (database w)
       with
       | (inr _, db') =>
           (inr tt,
            mkWorld db' (S (S (next_handle w))) ({[next_handle w]} ∪ open_handles w)
              (files w ++ [((length (files w), "create_table_" +:+ tbl_name this),
                            create_template this)])
              (S (completed w)))
       | (inl e, db') =>
           (inl e,
            mkWorld db' (S (S (next_handle w)))
              ({[S (next_handle w)]} ∪ ({[next_handle w]} ∪ open_handles w))
              (files w ++ [((length (files w), "create_table_" +:+ tbl_name this),
                            create_template this)])
              (completed w))
       end).
Proof.
  split_and!.
  - intros Hex. rewrite create_run, bool_decide_eq_true_2; [done|].
    by destruct (dao_findTableByName _ _).
  - reflexivity.
  - intros Hnone Hwf Hc Hname Hid.
    rewrite create_run, Hnone. cbn [length].
    rewrite bool_decide_eq_false_2 by (by intros ?).
    rewrite apply_unit_run by by apply connected_wf.
    rewrite migrate_up_persisted;
      [|done|by rewrite create_template_well_read, Hname, Hid].
    change (run_script (up (create_template this)) (database (connected w)))
      with (create_body this (metaRow this) (database w)).
    unfold create_body.
    destruct ((dao (createTable this);; dao (addTableMetaData (metaRow this)))
                (database w)) as [[e|[]] db'] eqn:Hrun;
      change (metaRow this)
        with (mkTableMetaRow (tbl_id this) (tbl_name this) (JSON_stringify (columns this))
                (getAllRule this) (getOneRule this) (createRule this)
                (updateRule this) (deleteRule this)) in Hrun;
      rewrite Hrun; [done|].
    pose proof (fresh_handle_released (connected w) (connected_wf w Hwf)) as Hset.
    cbn in Hset. unfold released.
    cbn [database next_handle open_handles files completed connected].
    by rewrite Hset.
Qed.

Lemma create_conflict_or_apply_witness :
  (∃ w', @create sample_DAO sample_JSON sample_Engine seals_v1 (sample_world seals_store)
         = (inl (AppErr (BadRequestError "The table name already exists: ")), w')
         ∧ database w' = database (sample_world seals_store)
         ∧ files w' = []) ∧
  ∃ w', @create sample_DAO sample_JSON sample_Engine seals_v1 (sample_world empty_store)
        = (inr tt, w')
        ∧ store (database w') = seals_store
        ∧ journal (database w')
          = [createTable seals_v1; addTableMetaData (@metaRow sample_JSON seals_v1)]
        ∧ 1 ∉ open_handles w'.
Proof.
  split.
  - eexists. split.
    + apply (@create_conflict_or_apply sample_DAO sample_JSON sample_Engine).
      by vm_compute.
    + split; reflexivity.
  - destruct (@create_conflict_or_apply sample_DAO sample_JSON sample_Engine seals_v1
                (sample_world empty_store)) as (_ & _ & Hrun).
    rewrite (Hrun eq_refl (sample_world_wf _) eq_refl eq_refl eq_refl).
    eexists. split; [reflexivity|].
    split_and!; [reflexivity | reflexivity |]. cbn.
    intros [Hh|Hh%not_elem_of_empty]%elem_of_union; [|done].
    by apply elem_of_singleton in Hh.
Defined.

(** C6 as stated fails while an earlier migration is pending.  The world is
    the one that [create] of [seals] leaves on the store where the physical
    table exists without its catalog row: the migration of [seals] has
    failed and stays pending.  No table is named [otters] there; [create]
    of [otters] writes its own migration and [migrate.up] runs the pending
    one of [seals], which fails again: [create] of [otters] ends with that
    error and no call has been made for [otters]. *)
Lemma create_runs_pending_migration :
  @dao_findTableByName sample_DAO (store (database stale_world)) "otters" = []
  ∧ wf_world stale_world
  ∧ verbatim (tbl_name otters) = true ∧ verbatim (tbl_id otters) = true
  ∧ files stale_world
    = [((0, "create_table_seals"), @create_template sample_JSON seals_v1)]
  ∧ completed stale_world = 0
  ∧ (@create sample_DAO sample_JSON sample_Engine otters stale_world).1
    = inl (StoreError "createTable")
  ∧ journal (database (@create sample_DAO sample_JSON sample_Engine otters stale_world).2)
    = []
  ∧ ((dao (createTable otters);;
      dao (addTableMetaData (@metaRow sample_JSON otters))) (database stale_world)).1
    = inr tt.
Proof.
  split; [reflexivity|]. split; [|split_and!; reflexivity].
  split.
  - intros [|i] p f Hi.
    + by injection Hi as <- _.
    + discriminate Hi.
  - intros h. change (open_handles stale_world) with ({[1]} ∪ ({[0]} ∪ ∅) : gset nat).
    change (next_handle stale_world) with 2.
    rewrite !elem_of_union, !elem_of_singleton, elem_of_empty. lia.
Qed.

(** A name with a double quote passes [validate()] and is not read from
    the file as it was pasted.  With the engine of the examples, which
    does not load such a file, [create] ends with the [SyntaxError] and
    without a call on the store. *)
Example create_quoted_name :
  validate sample_COLUMN_MAP quoted = inr tt
  ∧ verbatim (tbl_name quoted) = false
  ∧ (@create sample_DAO sample_JSON sample_Engine quoted (sample_world empty_store)).1
    = inl SyntaxError
  ∧ database (@create sample_DAO sample_JSON sample_Engine quoted
                (sample_world empty_store)).2
    = database (sample_world empty_store).
Proof. split_and!; reflexivity. Qed.

(** On the sample store the migration of the scenario goes forward and
    back to the store it started from; the migration to the revision with
    a duplicated column id does not: its [down] restores the catalog row
    and leaves the column renamed. *)
Example seals_round_trip :
  ∃ db1 db2,
    run_script (up (@update_template sample_JSON seals_v1 seals_v2))
      (@mkDB sample_DAO seals_store []) = (inr tt, db1)
    ∧ run_script (down (@update_template sample_JSON seals_v1 seals_v2)) db1
      = (inr tt, db2)
    ∧ store db2 = seals_store.
Proof. do 2 eexists. split_and!; reflexivity. Qed.

Example seals_dup_no_round_trip :
  ∃ db1 db2,
    run_script (up (@update_template sample_JSON seals_v1 seals_dup))
      (@mkDB sample_DAO seals_store []) = (inr tt, db1)
    ∧ run_script (down (@update_template sample_JSON seals_v1 seals_dup)) db1
      = (inr tt, db2)
    ∧ physical (store db2) = [("seals", [mkColumn "C1" "years" "int"])]
    ∧ catalog (store db2) = catalog seals_store.
Proof. do 2 eexists. split_and!; reflexivity. Qed.

(** ** Release of the connection *)

(** On each of the three paths, once the connection is open: when
    [migrate.up] returns, [db.destroy()] closes the handle; when it
    throws, the path ends with that exception and the handle is open. *)
Lemma paths_release_only_on_success `{DAO} `{JSON} `{!Engine} (n : string) (f : MigrationFile)
    (w : World) :
  wf_world w →
  match apply_unit n f w with
  | (inr _, w') => next_handle w ∉ open_handles w'
  | (inl e, w') => next_handle w ∈ open_handles w'
  end.
Proof.
  intros Hwf.
  destruct (migrate_up (next_handle w) (persisted w n f)) as [[e|[]] w1] eqn:Hup.
  - destruct (apply_unit_leaks n f w w1 e Hwf Hup) as [-> Hin]. done.
  - destruct (apply_unit n f w) as [[e|[]] w'] eqn:Hrun.
    + rewrite apply_unit_run, Hup in Hrun by done. done.
    + by eapply apply_unit_releases.
Qed.

(** C8 at a failing input.  The physical table [seals] exists and the
    catalog has no row for it; [create] finds no table of that name (over
    the DAO of its name check, whose connection, handle 0, nothing
    closes), opens the connection with handle 1, [createTable] fails
    inside [migrate.up], and [create] ends with that error while handle 1
    is still open. *)
Theorem create_leaks_connection_on_failure :
  @dao_findTableByName sample_DAO orphan_store "seals" = [] ∧
  ∃ w', @create sample_DAO sample_JSON sample_Engine seals_v1 (sample_world orphan_store)
        = (inl (StoreError "createTable"), w')
        ∧ 0 ∈ open_handles w'
        ∧ 1 ∈ open_handles w'.
Proof.
  split; [reflexivity|].
  rewrite (@create_run sample_DAO sample_JSON sample_Engine).
  replace (bool_decide _) with false by reflexivity.
  destruct (@apply_unit_leaks sample_DAO sample_Engine
              ("create_table_" +:+ tbl_name seals_v1) (@create_template sample_JSON seals_v1)
              (connected (sample_world orphan_store))
              (@migrate_up sample_DAO sample_Engine 1
                 (persisted (connected (sample_world orphan_store))
                    ("create_table_" +:+ tbl_name seals_v1)
                    (@create_template sample_JSON seals_v1))).2
              (StoreError "createTable")) as [Hrun Hopen].
  - apply connected_wf, sample_world_wf.
  - by rewrite migrate_up_persisted by reflexivity.
  - eexists. split; [exact Hrun|]. split; [|exact Hopen].
    rewrite migrate_up_handles.
    cbn [persisted connected sample_world open_handles next_handle].
    apply elem_of_union. right. apply elem_of_union. left.
    by apply elem_of_singleton.
Qed.

(** The same on the other two paths: dropping a table that is not in the
    store, and an update that drops a column the store does not have. *)
Example drop_leaks_connection_on_failure :
  ∃ w', @drop sample_DAO sample_JSON sample_Engine seals_v1 (sample_world empty_store)
        = (inl (StoreError "dropTable"), w')
        ∧ 0 ∈ open_handles w'.
Proof.
  rewrite (@drop_run sample_DAO sample_JSON sample_Engine).
  eexists. apply (@apply_unit_leaks sample_DAO sample_Engine); [apply sample_world_wf|].
  rewrite migrate_up_persisted by reflexivity. reflexivity.
Qed.

Example updateTo_leaks_connection_on_failure :
  ∃ w', @updateTo sample_DAO sample_JSON sample_Engine seals_v2 seals_v1 (sample_world seals_store)
        = (inl (StoreError "dropColumn"), w')
        ∧ 0 ∈ open_handles w'.
Proof.
  rewrite (@updateTo_run sample_DAO sample_JSON sample_Engine).
  replace (bool_decide _) with false by reflexivity.
  eexists. apply (@apply_unit_leaks sample_DAO sample_Engine); [apply sample_world_wf|].
  rewrite migrate_up_persisted by reflexivity. reflexivity.
Qed.

(** ** Row rehydration *)

Section RowFacts.

Context {Value : Type}.
Variable JSON_parse : option Value → option Value.
Variable COLUMN_MAP : gmap string ColumnType.

Local Abbreviation Row := (Row Value).

Lemma row_get_cons_ne (k key : string) (v : Value) (row : Row) :
  k ≠ key → row_get key ((k, v) :: row) = row_get key row.
Proof. intros Hne. unfold row_get. cbn. by rewrite bool_decide_eq_false_2. Qed.

Lemma row_get_set_ne (key k : string) (v : Value) (row : Row) :
  k ≠ key → row_get k (row_set key v row) = row_get k row.
Proof.
  intros Hne. unfold row_get. induction row as [|[k' w] row IH]; cbn.
  - by rewrite bool_decide_eq_false_2 by (by intros ?).
  - destruct (decide (k' = key)) as [->|Hk']; cbn.
    + by rewrite !bool_decide_eq_false_2 by (by intros ?).
    + case_bool_decide; [done | apply IH].
Qed.

Lemma keys_row_set (key : string) (v : Value) (row : Row) :
  key ∈ keys row → keys (row_set key v row) = keys row.
Proof.
  unfold keys. induction row as [|[k w] row IH]; cbn.
  - by intros ?%elem_of_nil.
  - destruct (decide (k = key)) as [->|Hk]; [done|].
    rewrite elem_of_cons. intros [->|Hin]; [done|]. cbn. f_equal. by apply IH.
Qed.

Lemma row_get_app_notin (key : string) (v : Value) (before after : Row) :
  key ∉ keys before → row_get key (before ++ (key, v) :: after) = Some v.
Proof.
  unfold keys. induction before as [|[k w] before IH].
  - intros _. unfold row_get. cbn. by rewrite bool_decide_eq_true_2.
  - rewrite fmap_cons, not_elem_of_cons, <- app_comm_cons. intros [Hne Hnot].
    rewrite row_get_cons_ne by done. by apply IH.
Qed.

Lemma row_set_app_notin (key : string) (v v' : Value) (before after : Row) :
  key ∉ keys before →
  row_set key v' (before ++ (key, v) :: after) = before ++ (key, v') :: after.
Proof.
  unfold keys. induction before as [|[k w] before IH]; cbn.
  - intros _. by rewrite decide_True.
  - rewrite not_elem_of_cons. intros [Hne Hnot].
    rewrite decide_False by done. f_equal. by apply IH.
Qed.

(** What one iteration of the inner loop does to the row. *)
Lemma parseKey_run (table : Table) (key : string) (row : Row) :
  parseKey JSON_parse COLUMN_MAP table key row
  = if reserved key then (inr tt, row)
    else match COLUMN_MAP !! (match getColumnByName table key with
                              | Some c => col_type c
                              | None => "undefined"
                              end) with
         | None =>
             (inl (TypeError "Cannot read properties of undefined (reading 'isJson')"),
              row)
         | Some entry =>
             if isJson entry
             then match JSON_parse (row_get key row) with
                  | Some v => (inr tt, row_set key v row)
                  | None => (inr tt, row)
                  end
             else (inr tt, row)
         end.
Proof.
  unfold parseKey. destruct (reserved key); [done|].
  destruct (COLUMN_MAP !! _) as [entry|]; [|done].
  destruct (isJson entry); [|done]. cbn.
  unfold try_catch. rewrite bind_run. cbn.
  by destruct (JSON_parse (row_get key row)).
Qed.

(** One step of the rehydration: under a key that is not reserved and whose
    column type is stored as JSON text, the value is replaced by the
    decoded one, or the row is left as it is when decoding fails; the step
    does not throw. *)
Lemma parseKey_json (table : Table) (key : string) (row : Row) :
  reserved key = false →
  requires_json COLUMN_MAP table key = true →
  parseKey JSON_parse COLUMN_MAP table key row
  = (inr tt, match JSON_parse (row_get key row) with
             | Some v => row_set key v row
             | None => row
             end).
Proof.
  intros Hres Hjson. rewrite parseKey_run, Hres. unfold requires_json in Hjson.
  destruct (getColumnByName table key) as [c|]; [|done].
  destruct (COLUMN_MAP !! col_type c) as [entry|]; [|done].
  rewrite Hjson. by destruct (JSON_parse (row_get key row)).
Qed.

(** One iteration on an entry that the loop has reached, in a row whose
    keys are distinct and resolve. *)
Lemma parseKey_entry (table : Table) (key : string) (v : Value) (before after : Row) :
  key ∉ keys before →
  (reserved key = false → resolves COLUMN_MAP table key) →
  parseKey JSON_parse COLUMN_MAP table key (before ++ (key, v) :: after)
  = (inr tt, before ++ (key, rehydrate_value JSON_parse COLUMN_MAP table key v) :: after).
Proof.
  intros Hnot Hres. rewrite parseKey_run. unfold rehydrate_value, requires_json.
  destruct (reserved key); [done|]. cbn.
  destruct (Hres eq_refl) as (c & -> & [entry ->]).
  destruct (isJson entry); [|done].
  rewrite row_get_app_notin by done.
  destruct (JSON_parse (Some v)) as [v'|]; cbn; [|done].
  by rewrite row_set_app_notin.
Qed.

Lemma for_of_keys (table : Table) (before todo : Row) :
  NoDup (keys (before ++ todo)) →
  Forall (λ key, reserved key = false → resolves COLUMN_MAP table key) (keys todo) →
  for_of (keys todo) (parseKey JSON_parse COLUMN_MAP table) (before ++ todo)
  = (inr tt, before ++ rehydrate_row JSON_parse COLUMN_MAP table todo).
Proof.
  revert before. induction todo as [|[k v] todo IH]; intros before Hnd Hres.
  - done.
  - unfold keys in *. rewrite fmap_cons in Hres. apply Forall_cons in Hres as [Hk Hres].
    cbn [fmap list_fmap for_of fst]. rewrite bind_run.
    rewrite parseKey_entry; [|rewrite fmap_app, fmap_cons in Hnd|done].
    + change (before ++ (k, rehydrate_value JSON_parse COLUMN_MAP table k v) :: todo)
        with (before ++ [(k, rehydrate_value JSON_parse COLUMN_MAP table k v)] ++ todo).
      rewrite app_assoc, IH; [by rewrite <- app_assoc| |done].
      rewrite <- app_assoc. cbn. by rewrite !fmap_app, !fmap_cons in *.
    + apply NoDup_app in Hnd as (_ & Hdisj & _). intros Hin.
      apply (Hdisj k Hin). left.
Qed.

Lemma same_frame_refl (row : Row) : same_frame row row.
Proof. split; [done|]. by repeat constructor. Qed.

Lemma same_frame_trans (r1 r2 r3 : Row) :
  same_frame r1 r2 → same_frame r2 r3 → same_frame r1 r3.
Proof.
  intros [Hk1 Hv1] [Hk2 Hv2]. split; [congruence|].
  rewrite Forall_forall in *. intros key Hkey.
  by rewrite (Hv2 key Hkey), (Hv1 key Hkey).
Qed.

Lemma parseKey_frame (table : Table) (key : string) (row : Row) :
  key ∈ keys row →
  same_frame row (parseKey JSON_parse COLUMN_MAP table key row).2.
Proof.
  intros Hin. rewrite parseKey_run.
  destruct (reserved key) eqn:Hres; [apply same_frame_refl|].
  destruct (COLUMN_MAP !! _) as [entry|]; [|apply same_frame_refl].
  destruct (isJson entry); [|apply same_frame_refl].
  destruct (JSON_parse (row_get key row)) as [v|]; [|apply same_frame_refl].
  split; [by apply keys_row_set|]. cbn.
  assert (Hne : ∀ k, reserved k = true → k ≠ key) by (intros k Hk ->; congruence).
  repeat constructor; apply row_get_set_ne, Hne; reflexivity.
Qed.

Lemma for_of_frame (table : Table) (ks : list string) (row : Row) :
  ks ⊆ keys row →
  same_frame row (for_of ks (parseKey JSON_parse COLUMN_MAP table) row).2.
Proof.
  revert row. induction ks as [|k ks IH]; intros row Hsub.
  - apply same_frame_refl.
  - cbn [for_of]. rewrite bind_run.
    assert (Hk : k ∈ keys row) by (apply Hsub; left).
    pose proof (parseKey_frame table k row Hk) as Hstep.
    destruct (parseKey _ _ table k row) as [[e|[]] row1]; [done|].
    cbn in Hstep. eapply same_frame_trans; [exact Hstep|].
    apply IH. destruct Hstep as [-> _]. intros x Hx. apply Hsub. by right.
Qed.

End RowFacts.

Section RehydrationTheorems.

Context {Value : Type}.
Variable JSON_parse : option Value → option Value.
Variable COLUMN_MAP : gmap string ColumnType.

Lemma for_rows_frame (table : Table) (rows : list (Row Value)) :
  Forall2 same_frame rows (parseJsonColumns JSON_parse COLUMN_MAP table rows).2.
Proof.
  unfold parseJsonColumns. induction rows as [|row rows IH]; [constructor|].
  cbn [for_rows]. rewrite bind_run. cbn [get].
  pose proof (for_of_frame JSON_parse COLUMN_MAP table (keys row) row
                (reflexivity _)) as Hrow.
  destruct (for_of (keys row) _ row) as [[e|[]] row'].
  - constructor; [done|]. clear. induction rows; constructor; [apply same_frame_refl | done].
  - destruct (for_rows _ rows) as [r rows']. by constructor.
Qed.

Lemma for_rows_rehydrate (table : Table) (rows : list (Row Value)) :
  Forall (λ row, NoDup (keys row)) rows →
  Forall (λ row, Forall (λ key, reserved key = false → resolves COLUMN_MAP table key)
                   (keys row)) rows →
  parseJsonColumns JSON_parse COLUMN_MAP table rows
  = (inr tt, rehydrate_row JSON_parse COLUMN_MAP table <$> rows).
Proof.
  unfold parseJsonColumns. induction rows as [|row rows IH]; [done|].
  rewrite !Forall_cons. intros [Hnd Hnds] [Hres Hress].
  cbn [for_rows]. rewrite bind_run. cbn [get].
  pose proof (for_of_keys JSON_parse COLUMN_MAP table [] row Hnd Hres) as Hrun.
  cbn [app] in Hrun. rewrite Hrun. by rewrite IH.
Qed.

(** X18.  Under a key that is not reserved and whose column type is stored
    as JSON text, one step of the rehydration replaces the value by the
    decoded one when [JSON.parse] succeeds and leaves the row as it is when
    it throws; the step itself does not throw.  For rows whose keys are
    reserved or name columns with a registered type, the whole of
    [parseJsonColumns] returns normally and every such value is the decoded
    one or, when decoding fails, the stored one. *)
Theorem rehydration_decodes_or_passes_through (table : Table) :
  (∀ (key : string) (row : Row Value),
     reserved key = false →
     requires_json COLUMN_MAP table key = true →
     parseKey JSON_parse COLUMN_MAP table key row
     = (inr tt, match JSON_parse (row_get key row) with
                | Some v => row_set key v row
                | None => row
                end)) ∧
  (∀ rows : list (Row Value),
     Forall (λ row, NoDup (keys row)) rows →
     Forall (λ row, Forall (λ key, reserved key = false → resolves COLUMN_MAP table key)
                      (keys row)) rows →
     parseJsonColumns JSON_parse COLUMN_MAP table rows
     = (inr tt, rehydrate_row JSON_parse COLUMN_MAP table <$> rows)).
Proof. split; [apply parseKey_json | apply for_rows_rehydrate]. Qed.

(** C10.  Whatever the table and the rows, and whether [parseJsonColumns]
    returns or throws, every row has the keys it had and the values it had
    under [id], [created_at] and [updated_at]. *)
Theorem rehydration_keeps_reserved_keys (table : Table) (rows : list (Row Value)) :
  Forall2
    (λ row row',
       keys row' = keys row ∧
       Forall (λ key, row_get key row' = row_get key row)
         ["id"; "created_at"; "updated_at"])
    rows (parseJsonColumns JSON_parse COLUMN_MAP table rows).2.
Proof. apply for_rows_frame. Qed.

End RehydrationTheorems.

Lemma rehydration_decodes_or_passes_through_witness :
  parseJsonColumns sample_parse sample_COLUMN_MAP notes notes_rows
  = (inr tt,
     [ [("id", Number 1); ("data", Decoded "[1,2]"); ("note", Text "[hi]");
        ("created_at", Text "2024-01-01")];
       [("id", Number 2); ("data", Text "oops"); ("note", Text "lo");
        ("created_at", Text "2024-01-02")] ]).
Proof.
  destruct (rehydration_decodes_or_passes_through sample_parse sample_COLUMN_MAP notes)
    as [_ Hrows].
  rewrite Hrows.
  - reflexivity.
  - repeat first [apply Forall_nil_2 | apply Forall_cons_2];
      refine (bool_decide_unpack _ _); vm_compute; exact I.
  - repeat first [apply Forall_nil_2 | apply Forall_cons_2];
      intros Hr;
      first [ discriminate Hr | eexists; split; [reflexivity | eexists; reflexivity] ].
Defined.

(** C7 at a failing input.  The table [notes] passes [validate()] and its
    column [data] is stored as JSON text.  The first row has the key
    [extra], which names no column, before [data], whose text [JSON.parse]
    decodes.  At [extra] the type read through [column?.type] is
    [undefined], the registry has no entry for it, and reading [.isJson]
    throws outside the [try] that guards [JSON.parse]: [parseJsonColumns]
    ends with the [TypeError], and the value under [data] is the raw text
    in that row and in the row after it. *)
Theorem rehydration_throws_at_unknown_key :
  validate sample_COLUMN_MAP notes = inr tt ∧
  reserved "data" = false ∧
  requires_json sample_COLUMN_MAP notes "data" = true ∧
  sample_parse (Some (Text "[1,2]")) = Some (Decoded "[1,2]") ∧
  parseJsonColumns sample_parse sample_COLUMN_MAP notes
    [ [("extra", Text "x"); ("data", Text "[1,2]")]; [("data", Text "[1,2]")] ]
  = (inl (TypeError "Cannot read properties of undefined (reading 'isJson')"),
     [ [("extra", Text "x"); ("data", Text "[1,2]")]; [("data", Text "[1,2]")] ]).
Proof. split_and!; reflexivity. Qed.

(** ** The column constructor *)

(** C9 (amended).  The constructed column has the id that was passed, or a
    fresh one when none was, and the name and type that were passed; the
    options bag has no part in it: two calls that differ only in their
    options construct the same column. *)
Theorem Column_new_ignores_options (uuid : nat → string) (a : ColumnArgs) (n : nat) :
  Column_new uuid a n
  = (inr (mkColumn (default (uuid n) (arg_id a)) (default "" (arg_name a))
            (default "" (arg_type a))),
     if arg_id a is Some _ then n else S n) ∧
  ∀ options,
    Column_new uuid (mkColumnArgs (arg_id a) (arg_name a) (arg_type a) options) n
    = Column_new uuid a n.
Proof.
  split.
  - unfold Column_new. rewrite bind_run. by destruct (arg_id a).
  - intros options. unfold Column_new. rewrite !bind_run. cbn. by destruct (arg_id a).
Qed.

(** C9 as stated fails: no reading of a constructed column yields the
    options it was constructed with, since two argument objects with
    different options construct equal columns. *)
Lemma Column_new_loses_options :
  let a1 := mkColumnArgs (Some "C1") (Some "age") (Some "int") (Some {[ "min" := "0" ]}) in
  let a2 := mkColumnArgs (Some "C1") (Some "age") (Some "int") (Some {[ "min" := "18" ]}) in
  arg_options a1 ≠ arg_options a2 ∧
  Column_new sample_uuid a1 0 = Column_new sample_uuid a2 0 ∧
  ¬ ∃ options_of : Column → Options,
      ∀ a n c n', Column_new sample_uuid a n = (inr c, n') →
                  options_of c = default ∅ (arg_options a).
Proof.
  intros a1 a2.
  assert (Hne : arg_options a1 ≠ arg_options a2).
  { intros Heq.
    apply (f_equal (λ o : option Options, default ∅ o !! "min")) in Heq.
    vm_compute in Heq. discriminate. }
  split_and!; [done | reflexivity |].
  intros (options_of & Hget).
  pose proof (Hget a1 0 _ _ eq_refl) as H1.
  pose proof (Hget a2 0 _ _ eq_refl) as H2.
  apply Hne. cbn in *. congruence.
Qed.

(** * Further properties of the table model *)

(** ** Lookup by id *)

(** X1.  [getColumnById] returns the first column of the table that has
    the id, and [null] exactly when no column has it. *)
Theorem getColumnById_first_match (t : Table) (i : string) :
  match getColumnById t i with
  | Some c =>
      ∃ before after,
        columns t = before ++ c :: after ∧ col_id c = i ∧ i ∉ col_id <$> before
  | None => i ∉ col_id <$> columns t
  end.
Proof.
  rewrite getColumnById_find_id. unfold find_id.
  induction (columns t) as [|x cols IH]; cbn.
  - apply not_elem_of_nil.
  - case_bool_decide as Hx.
    + exists [], cols. split_and!; [done | done | apply not_elem_of_nil].
    + destruct (find _ cols) as [c|].
      * destruct IH as (before & after & -> & Hc & Hnot).
        exists (x :: before), after. split_and!; [done | done |].
        rewrite fmap_cons, not_elem_of_cons. split; [by intros ? | done].
      * rewrite not_elem_of_cons. split; [by intros ? | done].
Qed.

(** ** Revisions that differ in column types only *)

Lemma filter_none {A} (P : A → Prop) `{∀ x, Decision (P x)} (l : list A) :
  (∀ x, x ∈ l → ¬ P x) → filter P l = [].
Proof.
  induction l as [|x l IH]; intros HP; [done|].
  rewrite filter_cons, decide_False by (apply HP; left).
  apply IH. intros y Hy. apply HP. by right.
Qed.

Lemma bind_none {A B} (f : A → list B) (l : list A) :
  (∀ x, x ∈ l → f x = []) → l ≫= f = [].
Proof.
  induction l as [|x l IH]; intros Hf; [done|].
  rewrite bind_cons, Hf by left. cbn. apply IH.
  intros y Hy. apply Hf. by right.
Qed.

(** X2.  When the new revision has the columns of the old one by id and
    name, in the same order, and the same table name, and the column ids
    are distinct, the diff is empty whatever the column types and rules
    are: the update migration makes the catalog write and nothing else. *)
Theorem diff_ignores_types `{JSON} (oldTable newTable : Table) :
  NoDup (col_id <$> columns oldTable) →
  (λ c, (col_id c, col_name c)) <$> columns newTable
    = (λ c, (col_id c, col_name c)) <$> columns oldTable →
  tbl_name oldTable = tbl_name newTable →
  diff oldTable newTable = [] ∧
  forward_spec oldTable newTable = [updateTableMetaData (metaRow newTable)].
Proof.
  intros Hio Hcols Hname.
  assert (Hmatch : ∀ c, c ∈ columns newTable →
            ∃ m, m ∈ columns oldTable ∧ col_id m = col_id c ∧ col_name m = col_name c).
  { intros c Hc.
    apply (list_elem_of_fmap_2 (λ c, (col_id c, col_name c))) in Hc.
    rewrite Hcols in Hc. apply list_elem_of_fmap in Hc as (m & [= Hid Hn] & Hm).
    eauto. }
  assert (Hdiff : diff_spec oldTable newTable = []).
  { unfold diff_spec, rename_table_spec. rewrite decide_True by done.
    rewrite app_nil_r.
    assert (Hdrops : drops_spec oldTable newTable = []).
    { unfold drops_spec. rewrite filter_none; [done|].
      intros m Hm Hnot. apply Hnot.
      replace (col_id <$> columns newTable) with (col_id <$> columns oldTable).
      - by apply list_elem_of_fmap_2.
      - apply (f_equal (fmap fst)) in Hcols.
        rewrite <- !list_fmap_compose in Hcols. by symmetry. }
    rewrite Hdrops. cbn. unfold adds_renames_spec.
    assert (Hall : ∀ c, c ∈ columns newTable → add_or_rename_spec oldTable c = []).
    { intros c Hc. destruct (Hmatch c Hc) as (m & Hm & Hid & Hn).
      unfold add_or_rename_spec. rewrite <- Hid, (find_id_NoDup _ _ Hio Hm).
      by rewrite decide_True. }
    by apply bind_none. }
  split.
  - by rewrite diff_is_diff_spec.
  - unfold forward_spec. by rewrite Hdiff.
Qed.

Lemma diff_ignores_types_witness :
  diff seals_v1 (seals [mkColumn "C1" "age" "json"]) = [] ∧
  @forward_spec sample_JSON seals_v1 (seals [mkColumn "C1" "age" "json"])
  = [updateTableMetaData (@metaRow sample_JSON (seals [mkColumn "C1" "age" "json"]))].
Proof.
  apply (@diff_ignores_types sample_JSON seals_v1 (seals [mkColumn "C1" "age" "json"])).
  - refine (bool_decide_unpack _ _). vm_compute. exact I.
  - reflexivity.
  - reflexivity.
Defined.

(** ** Identifiers drawn by the constructor *)

Lemma map_of_Column_new (uuid : nat → string) (args : list ColumnArgs) (n : nat) :
  Forall (λ a, arg_id a = None) args →
  ∃ cols, map_of args (Column_new uuid) n = (inr cols, n + length args)
          ∧ col_id <$> cols = uuid <$> seq n (length args).
Proof.
  revert n. induction args as [|a args IH]; intros n Hnone.
  - exists []. by rewrite Nat.add_0_r.
  - apply Forall_cons in Hnone as [Ha Hnone].
    destruct (IH (S n) Hnone) as (cols & Hrun & Hids).
    exists (mkColumn (uuid n) (default "" (arg_name a)) (default "" (arg_type a)) :: cols).
    split.
    + cbn [map_of]. rewrite bind_run. unfold Column_new at 1.
      rewrite bind_run, Ha. cbn. rewrite bind_run, Hrun. cbn.
      do 2 f_equal. lia.
    + cbn. by rewrite Hids.
Qed.

(** X3.  When [uuidv4] never repeats an identifier and the caller passes
    the columns as an array and leaves out the table id and every column
    id, a table that the constructor returns has pairwise distinct column
    ids, none of them equal to the table id, and the constructor has drawn
    one identifier for the table and one per column. *)
Theorem Table_new_fresh_ids `{JSON} (uuid : nat → string)
    (COLUMN_MAP : gmap string ColumnType) (a : TableArgs) (args : list ColumnArgs)
    (n n' : nat) (t : Table) :
  Inj (=) (=) uuid →
  targ_id a = None →
  targ_columns a = Some (inl args) →
  Forall (λ c, arg_id c = None) args →
  Table_new uuid COLUMN_MAP a n = (inr t, n') →
  NoDup (col_id <$> columns t) ∧
  (tbl_id t ∉ col_id <$> columns t) ∧
  tbl_id t = uuid n ∧
  col_id <$> columns t = uuid <$> seq (S n) (length args) ∧
  n' = S (n + length args).
Proof.
  intros Hinj Hid Hcols Hnone. unfold Table_new, Table_assign.
  rewrite !bind_run, Hid, Hcols. cbn. rewrite !bind_run. cbn. rewrite bind_run.
  destruct (map_of_Column_new uuid args (S n) Hnone) as (cols & -> & Hids).
  cbn. rewrite bind_run. unfold lift.
  destruct (validate _ _) as [e|[]]; [done|]. cbn.
  intros [= <- <-]. cbn. rewrite Hids. split_and!; [| |done|done|lia].
  - apply (NoDup_fmap_2 uuid), NoDup_seq.
  - intros (k & Hk%(inj uuid) & Hin)%list_elem_of_fmap.
    apply elem_of_seq in Hin. lia.
Qed.

Lemma sample_uuid_inj : Inj (=) (=) sample_uuid.
Proof. intros x y Heq. unfold sample_uuid in Heq. by simplify_eq. Qed.

Lemma Table_new_fresh_ids_witness :
  let t := mkTable "uuid-0" "seals"
             [mkColumn "uuid-1" "age" "int"; mkColumn "uuid-2" "weight" "float"]
             "public" "public" "public" "public" "public" in
  NoDup (col_id <$> columns t) ∧
  (tbl_id t ∉ col_id <$> columns t) ∧
  tbl_id t = sample_uuid 0 ∧
  col_id <$> columns t = sample_uuid <$> seq 1 2 ∧
  3 = S (0 + 2).
Proof.
  intros t.
  apply (@Table_new_fresh_ids sample_JSON sample_uuid sample_COLUMN_MAP
           (mkTableArgs None (Some "seals")
              (Some (inl [mkColumnArgs None (Some "age") (Some "int") None;
                          mkColumnArgs None (Some "weight") (Some "float") None]))
              None None None None None)
           [mkColumnArgs None (Some "age") (Some "int") None;
            mkColumnArgs None (Some "weight") (Some "float") None] 0 3 t).
  - apply sample_uuid_inj.
  - reflexivity.
  - reflexivity.
  - repeat constructor.
  - reflexivity.
Defined.

(** ** The migration directory and the connection on the three paths *)

Section PathAccounting.

Context `{DAO} `{JSON} `{!Engine}.

(** Once the connection is open, whatever [migrate.up] does: the rendered
    file is the last one of the directory, the files before it are as they
    were, one handle has been handed out and the world is well formed. *)
Lemma apply_unit_world (n : string) (f : MigrationFile) (w : World) :
  wf_world w →
  files (apply_unit n f w).2 = files w ++ [((length (files w), n), f)] ∧
  next_handle (apply_unit n f w).2 = S (next_handle w) ∧
  wf_world (apply_unit n f w).2.
Proof.
  intros Hwf. rewrite apply_unit_run by done.
  assert (Hwfp : wf_world (persisted w n f)).
  { destruct Hwf as [Hfiles Hopen]. split; cbn.
    - intros i p g. rewrite lookup_app_Some. intros [Hi|[Hlen Hi]].
      + by eapply Hfiles.
      + apply list_lookup_singleton_Some in Hi as [Hi [= <- _]]. cbn.
        apply Nat.le_antisymm; [exact Hlen | apply Nat.sub_0_le, Hi].
    - intros h [->%elem_of_singleton|Hh%Hopen]%elem_of_union; lia. }
  unfold migrate_up.
  destruct (files (persisted w n f) !! completed (persisted w n f)) as [[p g]|].
  - destruct ((if well_read g then run_script (up g) else other_js g) _)
      as [[e|[]] db']; cbn.
    + split_and!; [done | done |]. destruct Hwfp as [Hf Ho]. by split.
    + split_and!; [done | done |]. destruct Hwfp as [Hf Ho]. split; cbn; [done|].
      intros h [Hh _]%elem_of_difference. by apply Ho.
  - cbn. split_and!; [done | done |]. destruct Hwfp as [Hf Ho]. split; cbn; [done|].
    intros h [Hh _]%elem_of_difference. by apply Ho.
Qed.

(** X4.  In a well-formed world, [drop], [create] past its name check and
    [updateTo] past its id check each leave exactly one more file in the
    migration directory, after the files that were there: the rendered
    template under the name of the path and the table, whether the
    migration then ran or failed; and the world stays well formed. *)
Theorem paths_persist_one_file (this newTable : Table) (w : World) :
  wf_world w →
  (files (drop this w).2
     = files w ++ [((length (files w), "drop_table_" +:+ tbl_name this),
                    drop_template this)]
   ∧ wf_world (drop this w).2) ∧
  (dao_findTableByName (store (database w)) (tbl_name this) = [] →
   files (create this w).2
     = files w ++ [((length (files w), "create_table_" +:+ tbl_name this),
                    create_template this)]
   ∧ wf_world (create this w).2) ∧
  (tbl_id this = tbl_id newTable →
   files (updateTo this newTable w).2
     = files w ++ [((length (files w), "update_table_" +:+ tbl_name this),
                    update_template this newTable)]
   ∧ wf_world (updateTo this newTable w).2).
Proof.
  intros Hwf. split; [|split].
  - rewrite drop_run.
    destruct (apply_unit_world ("drop_table_" +:+ tbl_name this)
                (drop_template this) w Hwf) as (? & _ & ?). done.
  - intros Hnone. rewrite create_run, Hnone. cbn [length].
    rewrite bool_decide_eq_false_2 by (by intros ?).
    destruct (apply_unit_world ("create_table_" +:+ tbl_name this)
                (create_template this) (connected w) (connected_wf w Hwf))
      as (? & _ & ?). done.
  - intros Hid. rewrite updateTo_run, bool_decide_eq_false_2 by (by intros ?).
    destruct (apply_unit_world ("update_table_" +:+ tbl_name this)
                (update_template this newTable) w Hwf) as (? & _ & ?). done.
Qed.

Lemma apply_unit_success (n : string) (f : MigrationFile) (w w' : World) :
  wf_world w →
  apply_unit n f w = (inr tt, w') → open_handles w' = open_handles w.
Proof.
  intros Hwf. rewrite apply_unit_run by done.
  pose proof (migrate_up_handles (next_handle w) (persisted w n f)) as Hup.
  destruct (migrate_up _ _) as [[e|[]] w1]; [done|].
  intros [= <-]. cbn in *. rewrite Hup. by apply fresh_handle_released.
Qed.

(** X5.  In a well-formed world, when [drop] or [updateTo] returns
    normally, the set of open connections is the one it started with: the
    handle it opened is closed and no other handle is touched.  [create]
    leaves one more connection open than it found, on its conflict exit
    and when it returns normally: the one of the DAO of its name check,
    which had not been handed out before; the connection of the migration
    is closed when it returns normally. *)
Theorem paths_success_restores_handles (this newTable : Table) (w : World) :
  wf_world w →
  (∀ w', drop this w = (inr tt, w') → open_handles w' = open_handles w) ∧
  (∀ w', updateTo this newTable w = (inr tt, w') → open_handles w' = open_handles w) ∧
  (∀ w', create this w = (inr tt, w') →
         open_handles w' = {[next_handle w]} ∪ open_handles w
         ∧ S (next_handle w) ∉ open_handles w') ∧
  (dao_findTableByName (store (database w)) (tbl_name this) ≠ [] →
   open_handles (create this w).2 = {[next_handle w]} ∪ open_handles w) ∧
  next_handle w ∉ open_handles w.
Proof.
  intros Hwf. split_and!.
  - intros w'. rewrite drop_run. by apply apply_unit_success.
  - intros w'. rewrite updateTo_run. case_bool_decide; [done|].
    by apply apply_unit_success.
  - intros w'. rewrite create_run. case_bool_decide; [done|]. intros Hrun.
    apply apply_unit_success in Hrun as Hopen; [|by apply connected_wf].
    split; [done|]. rewrite Hopen. cbn.
    destruct Hwf as [_ Hopen']. rewrite elem_of_union, elem_of_singleton.
    intros [?|Hh%Hopen']; lia.
  - intros Hex. rewrite create_run, bool_decide_eq_true_2; [done|].
    by destruct (dao_findTableByName _ _).
  - destruct Hwf as [_ Hopen]. intros Hin%Hopen. lia.
Qed.

End PathAccounting.

Lemma paths_persist_one_file_witness :
  files (@drop sample_DAO sample_JSON sample_Engine seals_v1 (sample_world empty_store)).2
  = [((0, "drop_table_seals"), @drop_template sample_JSON seals_v1)] ∧
  files (@create sample_DAO sample_JSON sample_Engine seals_v1 (sample_world empty_store)).2
  = [((0, "create_table_seals"), @create_template sample_JSON seals_v1)] ∧
  files (@updateTo sample_DAO sample_JSON sample_Engine seals_v1 seals_v2 (sample_world seals_store)).2
  = [((0, "update_table_seals"), @update_template sample_JSON seals_v1 seals_v2)].
Proof.
  destruct (@paths_persist_one_file sample_DAO sample_JSON sample_Engine seals_v1 seals_v2
              (sample_world empty_store) (sample_world_wf _))
    as ([Hdrop _] & Hcreate & _).
  destruct (@paths_persist_one_file sample_DAO sample_JSON sample_Engine seals_v1 seals_v2
              (sample_world seals_store) (sample_world_wf _))
    as (_ & _ & Hupdate).
  split_and!.
  - exact Hdrop.
  - exact (proj1 (Hcreate eq_refl)).
  - exact (proj1 (Hupdate eq_refl)).
Defined.

Lemma paths_success_restores_handles_witness :
  (∃ w', @drop sample_DAO sample_JSON sample_Engine seals_v1 (sample_world seals_store)
         = (inr tt, w')
         ∧ open_handles w' = ∅) ∧
  (∃ w', @create sample_DAO sample_JSON sample_Engine seals_v1 (sample_world empty_store)
         = (inr tt, w')
         ∧ open_handles w' = {[0]} ∪ ∅).
Proof.
  split.
  - destruct (@drop sample_DAO sample_JSON sample_Engine seals_v1
                (sample_world seals_store)) as [[e|[]] w'] eqn:Hrun.
    + exfalso. rewrite drop_run in Hrun.
      rewrite apply_unit_run in Hrun by apply sample_world_wf.
      rewrite migrate_up_persisted in Hrun by reflexivity. discriminate Hrun.
    + exists w'. split; [reflexivity|].
      exact (proj1 (@paths_success_restores_handles sample_DAO sample_JSON
                      sample_Engine seals_v1 seals_v2 (sample_world seals_store)
                      (sample_world_wf _)) w' Hrun).
  - destruct (@create sample_DAO sample_JSON sample_Engine seals_v1
                (sample_world empty_store)) as [[e|[]] w'] eqn:Hrun.
    + exfalso. rewrite create_run in Hrun.
      replace (bool_decide _) with false in Hrun by reflexivity.
      rewrite apply_unit_run in Hrun by apply connected_wf, sample_world_wf.
      rewrite migrate_up_persisted in Hrun by reflexivity. discriminate Hrun.
    + exists w'. split; [reflexivity|].
      exact (proj1 (proj1 (proj2 (proj2
               (@paths_success_restores_handles sample_DAO sample_JSON sample_Engine
                  seals_v1 seals_v2 (sample_world empty_store) (sample_world_wf _))))
               w' Hrun)).
Defined.

(** * Further properties of the row rehydration *)

Section RehydrationOutcome.

Context {Value : Type}.
Variable JSON_parse : option Value → option Value.
Variable COLUMN_MAP : gmap string ColumnType.

Local Abbreviation Row := (Row Value).
Local Abbreviation isJson_error :=
  (TypeError "Cannot read properties of undefined (reading 'isJson')").

Lemma parseKey_outcome (table : Table) (key : string) (row : Row) :
  (parseKey JSON_parse COLUMN_MAP table key row).1
  = if unregistered COLUMN_MAP table key then inl isJson_error else inr tt.
Proof.
  rewrite parseKey_run. unfold unregistered, type_key.
  destruct (reserved key); [done|]. cbn.
  destruct (COLUMN_MAP !! _) as [entry|].
  - rewrite bool_decide_eq_false_2 by done.
    destruct (isJson entry); [|done]. by destruct (JSON_parse _).
  - by rewrite bool_decide_eq_true_2.
Qed.

Lemma for_of_outcome (table : Table) (ks : list string) (row : Row) :
  (for_of ks (parseKey JSON_parse COLUMN_MAP table) row).1
  = if existsb (unregistered COLUMN_MAP table) ks then inl isJson_error else inr tt.
Proof.
  revert row. induction ks as [|k ks IH]; intros row; [done|].
  cbn [for_of existsb]. rewrite bind_run.
  pose proof (parseKey_outcome table k row) as Hk.
  destruct (parseKey _ _ table k row) as [[e|[]] row1]; cbn in Hk.
  - destruct (unregistered COLUMN_MAP table k); [by rewrite Hk | done].
  - destruct (unregistered COLUMN_MAP table k); [done|]. cbn. apply IH.
Qed.

(** X6.  [parseJsonColumns] returns normally exactly when no row has a key
    that is neither reserved nor registered (a key whose column type, or
    ["undefined"] when no column has that name, has no entry in the
    registry); otherwise it throws the [TypeError] of reading [isJson].
    It throws nothing else: a failure of [JSON.parse] never leaves it. *)
Theorem parseJsonColumns_outcome (table : Table) (rows : list Row) :
  (parseJsonColumns JSON_parse COLUMN_MAP table rows).1
  = if existsb (λ row, existsb (unregistered COLUMN_MAP table) (keys row)) rows
    then inl isJson_error
    else inr tt.
Proof.
  unfold parseJsonColumns. induction rows as [|row rows IH]; [done|].
  cbn [for_rows existsb]. rewrite bind_run. cbn [get].
  pose proof (for_of_outcome table (keys row) row) as Hrow.
  destruct (for_of (keys row) _ row) as [[e|[]] row']; cbn in Hrow.
  - destruct (existsb _ (keys row)); [by rewrite Hrow | done].
  - destruct (existsb _ (keys row)); [done|]. cbn.
    by destruct (for_rows _ rows) as [r rows'].
Qed.

Lemma parseKey_undecoded (table : Table) (key : string) (row : Row) (k : string) :
  decodes COLUMN_MAP table k = false →
  row_get k (parseKey JSON_parse COLUMN_MAP table key row).2 = row_get k row.
Proof.
  intros Hk. rewrite parseKey_run.
  destruct (reserved key) eqn:Hres; [done|].
  destruct (COLUMN_MAP !! _) as [entry|] eqn:Hentry; [|done].
  destruct (isJson entry) eqn:Hjson; [|done].
  destruct (JSON_parse (row_get key row)) as [v|]; [|done]. cbn.
  apply row_get_set_ne. intros ->.
  unfold decodes, type_key in Hk. by rewrite Hres, Hentry, Hjson in Hk.
Qed.

Lemma for_of_undecoded (table : Table) (ks : list string) (row : Row) (k : string) :
  decodes COLUMN_MAP table k = false →
  row_get k (for_of ks (parseKey JSON_parse COLUMN_MAP table) row).2 = row_get k row.
Proof.
  intros Hk. revert row. induction ks as [|k' ks IH]; intros row; [done|].
  cbn [for_of]. rewrite bind_run.
  pose proof (parseKey_undecoded table k' row k Hk) as Hstep.
  destruct (parseKey _ _ table k' row) as [[e|[]] row1]; [done|].
  rewrite IH. exact Hstep.
Qed.

(** X7.  Whether [parseJsonColumns] returns or throws, in every row the
    value under every key that is reserved, or whose registry entry is
    missing or does not have [isJson], is the value it was: only values
    under JSON-typed keys are ever written. *)
Theorem parseJsonColumns_writes_only_json_keys (table : Table) (rows : list Row) :
  Forall2
    (λ row row', ∀ k, decodes COLUMN_MAP table k = false →
                      row_get k row' = row_get k row)
    rows (parseJsonColumns JSON_parse COLUMN_MAP table rows).2.
Proof.
  unfold parseJsonColumns. induction rows as [|row rows IH]; [constructor|].
  cbn [for_rows]. rewrite bind_run. cbn [get].
  pose proof (for_of_undecoded table (keys row) row) as Hrow.
  destruct (for_of (keys row) _ row) as [[e|[]] row'].
  - constructor; [exact Hrow|].
    clear. induction rows as [|r rs IHr]; [constructor|].
    constructor; [by intros ? ? | exact IHr].
  - destruct (for_rows _ rows) as [r rows']. constructor; [exact Hrow | exact IH].
Qed.

Lemma for_rows_app_ok (body : M Row unit) (pre pre' rest : list Row) :
  for_rows body pre = (inr tt, pre') →
  for_rows body (pre ++ rest)
  = ((for_rows body rest).1, pre' ++ (for_rows body rest).2).
Proof.
  revert pre'. induction pre as [|row pre IH]; intros pre'.
  - intros [= <-]. cbn [app]. by destruct (for_rows body rest) as [r l].
  - cbn [for_rows app]. destruct (body row) as [[e|[]] row1]; [done|].
    destruct (for_rows body pre) as [[e|[]] pre1] eqn:Hpre; [done|].
    intros [= <-]. rewrite (IH pre1 eq_refl).
    by destruct (for_rows body rest) as [r l].
Qed.

(** X8.  When the rows before some row rehydrate and that row has a key
    that is neither reserved nor registered, [parseJsonColumns] throws
    with the earlier rows already rehydrated in place, the failing row
    holding the keys it had, and the later rows as they were passed. *)
Theorem parseJsonColumns_stops_at_unregistered_key (table : Table)
    (pre post : list Row) (bad : Row) :
  Forall (λ row, NoDup (keys row)) pre →
  Forall (λ row, Forall (λ key, reserved key = false → resolves COLUMN_MAP table key)
                   (keys row)) pre →
  existsb (unregistered COLUMN_MAP table) (keys bad) = true →
  ∃ bad',
    parseJsonColumns JSON_parse COLUMN_MAP table (pre ++ bad :: post)
    = (inl isJson_error,
       (rehydrate_row JSON_parse COLUMN_MAP table <$> pre) ++ bad' :: post)
    ∧ keys bad' = keys bad.
Proof.
  intros Hnd Hres Hbad.
  pose proof (for_rows_rehydrate JSON_parse COLUMN_MAP table pre Hnd Hres) as Hpre.
  unfold parseJsonColumns in *.
  rewrite (for_rows_app_ok _ pre _ (bad :: post) Hpre).
  cbn [for_rows]. rewrite bind_run. cbn [get].
  pose proof (for_of_outcome table (keys bad) bad) as Hout.
  pose proof (for_of_frame JSON_parse COLUMN_MAP table (keys bad) bad
                (reflexivity _)) as [Hkeys _].
  rewrite Hbad in Hout.
  destruct (for_of (keys bad) _ bad) as [[e|[]] bad']; cbn in Hout; [|done].
  injection Hout as ->. exists bad'. by split.
Qed.

End RehydrationOutcome.

Lemma parseJsonColumns_stops_at_unregistered_key_witness :
  ∃ bad',
    parseJsonColumns sample_parse sample_COLUMN_MAP notes
      ([ [("id", Number 1); ("data", Text "[1,2]")] ]
         ++ [("data", Text "[3]"); ("extra", Text "x"); ("note", Text "n")]
         :: [ [("id", Number 3); ("data", Text "[4]")] ])
    = (inl (TypeError "Cannot read properties of undefined (reading 'isJson')"),
       (rehydrate_row sample_parse sample_COLUMN_MAP notes
          <$> [ [("id", Number 1); ("data", Text "[1,2]")] ])
         ++ bad' :: [ [("id", Number 3); ("data", Text "[4]")] ])
    ∧ keys bad' = keys [("data", Text "[3]"); ("extra", Text "x"); ("note", Text "n")].
Proof.
  apply (parseJsonColumns_stops_at_unregistered_key sample_parse sample_COLUMN_MAP notes).
  - repeat first [apply Forall_nil_2 | apply Forall_cons_2];
      refine (bool_decide_unpack _ _); vm_compute; exact I.
  - repeat first [apply Forall_nil_2 | apply Forall_cons_2];
      intros Hr;
      first [ discriminate Hr | eexists; split; [reflexivity | eexists; reflexivity] ].
  - reflexivity.
Defined.

(** * Properties of the error handler and of the authentication handlers *)

(** X9.  Every exception of [validate()], of [validateUpdateTo] and of the
    name check of [create] is answered by the error handler with status
    400, code [BAD_REQUEST] and the same fixed message and detail: the
    message that the table model passes to [BadRequestError] is not in the
    response.  The [TypeError] that leaves [parseJsonColumns] has no
    status and is answered with 500 and its message alone. *)
Theorem error_responses `{DAO} `{JSON} `{!Engine} {Value : Type}
    (JSON_parse : option Value → option Value)
    (COLUMN_MAP : gmap string ColumnType) (t newTable : Table) (w : World)
    (rows : list (Row Value)) :
  let bad_request :=
    mkResponse 400 (Some "Hmm this operation didn't work")
      (Some "Failed to execute the request. Probably due to an invalid ID provided.")
      (Some "BAD_REQUEST") in
  (∀ e, validate COLUMN_MAP t = inl e →
        errorHandler <$> error_object e = Some bad_request) ∧
  (∀ e, validateUpdateTo t newTable = inl e →
        errorHandler <$> error_object e = Some bad_request) ∧
  (∀ e w', dao_findTableByName (store (database w)) (tbl_name t) ≠ [] →
           create t w = (inl e, w') →
           errorHandler <$> error_object e = Some bad_request) ∧
  (∀ e, (parseJsonColumns JSON_parse COLUMN_MAP t rows).1 = inl e →
        errorHandler <$> error_object e
        = Some (mkResponse 500
                  (Some "Cannot read properties of undefined (reading 'isJson')")
                  None None)).
Proof.
  cbv zeta. split_and!.
  - intros e He. by rewrite (validate_throws _ _ _ He).
  - intros e. unfold validateUpdateTo. case_bool_decide; [|done]. by intros [= <-].
  - intros e w' Hex. rewrite create_run, bool_decide_eq_true_2.
    + by intros [= <- _].
    + by destruct (dao_findTableByName _ _).
  - intros e. rewrite parseJsonColumns_outcome.
    destruct (existsb _ rows); [|done]. by intros [= <-].
Qed.

Section AuthFacts.

Context {Value : Type} `{EqDecision Value} `{AuthEnv Value}.
Variable JSON_parse : option Value → option Value.
Variable COLUMN_MAP : gmap string ColumnType.

Local Abbreviation Row := (Row Value).

Lemma hbind_run {A B} (p : Handler A) (k : A → Handler B) (st : AuthState) :
  (p ≫= k) st = match p st with
                | (inr a, st') => k a st'
                | (inl e, st') => (inl e, st')
                end.
Proof. reflexivity. Qed.

Lemma row_get_set_eq (key : string) (v : Value) (row : Row) :
  row_get key (row_set key v row) = Some v.
Proof.
  unfold row_get. induction row as [|[k w] row IH]; cbn.
  - by rewrite bool_decide_eq_true_2.
  - destruct (decide (k = key)) as [->|Hk]; cbn.
    + by rewrite bool_decide_eq_true_2.
    + by rewrite bool_decide_eq_false_2.
Qed.

Lemma elem_of_keys_row_set (key k : string) (v : Value) (row : Row) :
  k ∈ keys (row_set key v row) → k = key ∨ k ∈ keys row.
Proof.
  unfold keys. induction row as [|[k' w] row IH]; cbn.
  - intros ->%list_elem_of_singleton. by left.
  - destruct (decide (k' = key)) as [->|Hk']; cbn.
    + rewrite !elem_of_cons. tauto.
    + rewrite !elem_of_cons. intros [->|Hin]; [tauto|].
      destruct (IH Hin); tauto.
Qed.

Lemma not_elem_of_keys_row_delete (key : string) (row : Row) :
  key ∉ keys (row_delete key row).
Proof.
  unfold keys, row_delete. intros ([k v] & Hk & [Hne _]%list_elem_of_filter)%list_elem_of_fmap.
  cbn in *. congruence.
Qed.

Lemma row_get_delete_ne (key k : string) (row : Row) :
  k ≠ key → row_get k (row_delete key row) = row_get k row.
Proof.
  intros Hne. unfold row_get, row_delete. induction row as [|[k' w] row IH]; [done|].
  rewrite filter_cons. cbn. destruct (decide (k' ≠ key)) as [Hk'|Hk']; cbn.
  - case_bool_decide; [done | apply IH].
  - rewrite bool_decide_eq_false_2; [apply IH|].
    intros ->. apply Hk'. done.
Qed.

(** The row that [parseJsonColumns] hands back has the keys of the row it
    was given. *)
Lemma parseJsonColumns_of_keys (table : Table) (row row' : Row) (st st' : AuthState) :
  parseJsonColumns_of JSON_parse COLUMN_MAP table row st = (inr row', st') →
  keys row' = keys row ∧ st' = st.
Proof.
  unfold parseJsonColumns_of.
  pose proof (for_rows_frame JSON_parse COLUMN_MAP table [row]) as Hframe.
  destruct (parseJsonColumns JSON_parse COLUMN_MAP table [row]) as [[e|[]] rows'];
    [done|]. cbn in Hframe.
  apply Forall2_cons_inv_l in Hframe as (r1 & rest & [Hkeys _] & Hrest & ->).
  apply Forall2_nil_inv_l in Hrest as ->.
  by intros [= <- <-].
Qed.

End AuthFacts.

Section AuthTheorems.

Context {Value : Type} `{EqDecision Value} `{AuthEnv Value}.
Variable JSON_parse : option Value → option Value.
Variable COLUMN_MAP : gmap string ColumnType.

Local Abbreviation Row := (Row Value).

(** What happens to the state after [createOne] has been called in
    [registerHandler]: nothing is sent any more and the body is not
    touched. *)
Lemma register_tail (table : Table) (rows : list Row) (st : AuthState) :
  sent ((first_row rows ≫= λ createdUser,
           parseJsonColumns_of JSON_parse COLUMN_MAP table
             (row_delete "password" createdUser)) st).2 = sent st
  ∧ req_body ((first_row rows ≫= λ createdUser,
                 parseJsonColumns_of JSON_parse COLUMN_MAP table
                   (row_delete "password" createdUser)) st).2 = req_body st.
Proof.
  rewrite hbind_run. destruct rows as [|u rows]; [done|]. cbn.
  unfold parseJsonColumns_of.
  destruct (parseJsonColumns _ _ table _) as [[e|[]] [|r [|r' rs]]]; done.
Qed.

(** X10.  [registerHandler] sends at most one row to the DAO, to the table
    [users]; in that row [role] is ["user"], [id] is a freshly drawn
    identifier and [password] is the [bcrypt] hash of the password of the
    request, whatever the request body says of [role], [id] or [password];
    the row has no [passwordConfirm]; every other property is the one of
    the request body. *)
Theorem registerHandler_sends_user_row (table : Table) (st : AuthState) :
  sent (registerHandler JSON_parse COLUMN_MAP table st).2 = sent st ∨
  ∃ row h,
    sent (registerHandler JSON_parse COLUMN_MAP table st).2
      = sent st ++ [CreateOne "users" row] ∧
    bcrypt_hash (prop "password"
                   (req_body (registerHandler JSON_parse COLUMN_MAP table st).2))
      = Some h ∧
    row_get "password" row = Some h ∧
    row_get "role" row = Some (str "user") ∧
    row_get "id" row = Some (generateUuid (drawn st)) ∧
    ("passwordConfirm" ∉ keys row) ∧
    ∀ k, k ∉ ["id"; "password"; "role"] →
         row_get k row
         = row_get k (req_body (registerHandler JSON_parse COLUMN_MAP table st).2).
Proof.
  unfold registerHandler. rewrite hbind_run. cbn [getSession].
  rewrite hbind_run.
  set (st1 := (match session_user st with
               | Some u =>
                   if bool_decide (createRule table = "creator")
                   then setBody (row_set "creator" (prop "id" u))
                   else mret tt
               | None => mret tt
               end st)).
  assert (Hst1 : st1.1 = inr tt ∧ sent st1.2 = sent st ∧ drawn st1.2 = drawn st).
  { subst st1. destruct (session_user st); [|done]. by case_bool_decide. }
  destruct st1 as [[e|[]] st1]; destruct Hst1 as (Hok & Hsent1 & Hdrawn1); [done|].
  cbn in Hsent1, Hdrawn1. rewrite hbind_run. cbn [setBody]. rewrite hbind_run.
  cbn [getBody req_body]. rewrite hbind_run.
  set (body := row_delete "passwordConfirm" (req_body st1)).
  destruct (bcrypt_hash (prop "password" body)) as [h|] eqn:Hhash; cbn [await];
    [|left; by cbn].
  cbn. rewrite hbind_run. cbn [drawUuid]. rewrite hbind_run.
  cbn [users sent drawn req_body session_user].
  set (row := row_set "role" (str "user")
                (row_set "password" h (row_set "id" (generateUuid (drawn st1)) body))).
  assert (Hrow : row_get "password" row = Some h ∧
                 row_get "role" row = Some (str "user") ∧
                 row_get "id" row = Some (generateUuid (drawn st)) ∧
                 ("passwordConfirm" ∉ keys row) ∧
                 ∀ k, k ∉ ["id"; "password"; "role"] → row_get k row = row_get k body).
  { subst row. split_and!.
    - rewrite row_get_set_ne by done. apply row_get_set_eq.
    - apply row_get_set_eq.
    - rewrite !row_get_set_ne by done. rewrite Hdrawn1. apply row_get_set_eq.
    - intros [?|[?|[?|Hin]%elem_of_keys_row_set]%elem_of_keys_row_set]%elem_of_keys_row_set;
        try done.
      by apply not_elem_of_keys_row_delete in Hin.
    - intros k Hk. rewrite !not_elem_of_cons in Hk. destruct Hk as (? & ? & ? & _).
      by rewrite !row_get_set_ne by done. }
  right. exists row, h. unfold createOne. cbn [users sent drawn req_body session_user].
  destruct (dao_createOne "users" row (users st1)) as [[rows users']|].
  - match goal with
    | |- context [(first_row rows ≫= ?k) ?s] =>
        destruct (register_tail table rows s) as [Hs Hb]
    end.
    rewrite Hs, Hb. cbn [sent req_body]. rewrite Hsent1.
    split; [done|]. split; [exact Hhash|]. exact Hrow.
  - cbn [snd sent req_body]. rewrite Hsent1.
    split; [done|]. split; [exact Hhash|]. exact Hrow.
Qed.

Lemma hbind_inr {A B} (p : Handler A) (k : A → Handler B) (st st' : AuthState) (b : B) :
  (p ≫= k) st = (inr b, st') →
  ∃ a st1, p st = (inr a, st1) ∧ k a st1 = (inr b, st').
Proof. rewrite hbind_run. destruct (p st) as [[e|a] st1]; [done|]. eauto. Qed.

Local Ltac hred :=
  cbv [mbind Handler_bind mret Handler_ret getBody getSession setBody setSession
       drawUuid await raise getAll search createOne updateOne first_row];
  cbn [users session_user req_body drawn sent fst snd].

(** The end of [registerHandler] and of [updateUsername]: the first row of
    the DAO's answer, without its password, rehydrated. *)
Lemma payload_tail (table : Table) (rows : list Row) (row : Row) (st st' : AuthState) :
  (first_row rows ≫= λ user,
     parseJsonColumns_of JSON_parse COLUMN_MAP table (row_delete "password" user)) st
  = (inr row, st') →
  ∃ user rest, rows = user :: rest
               ∧ keys row = keys (row_delete "password" user) ∧ st' = st.
Proof.
  intros (user & st1 & Hfirst & Hparse)%hbind_inr.
  destruct rows as [|u rest]; [done|]. cbn in Hfirst. injection Hfirst as <- <-.
  apply parseJsonColumns_of_keys in Hparse as [Hkeys ->]. eauto.
Qed.

(** X11.  A registration that succeeds hands to its listeners the first
    row of the DAO's answer without the property [password], and leaves
    the session as it was. *)
Theorem registerHandler_payload_has_no_password (table : Table) (st st' : AuthState)
    (row : Row) :
  registerHandler JSON_parse COLUMN_MAP table st = (inr row, st') →
  ("password" ∉ keys row)
  ∧ session_user st' = session_user st
  ∧ ∃ sent_row user rest,
      dao_createOne "users" sent_row (users st) = Some (user :: rest, users st')
      ∧ keys row = keys (row_delete "password" user).
Proof.
  unfold registerHandler. intros (user & s1 & Hs1 & Hrun)%hbind_inr.
  cbn in Hs1. injection Hs1 as <- <-.
  apply hbind_inr in Hrun as ([] & s2 & Hs2 & Hrun).
  assert (Hs2' : users s2 = users st ∧ session_user s2 = session_user st).
  { destruct (session_user st) eqn:Hsess; [case_bool_decide|]; cbn in Hs2;
      by injection Hs2 as <-. }
  destruct Hs2' as [Hu2 Hsess2]. clear Hs2.
  apply hbind_inr in Hrun as ([] & s3 & [= <-] & Hrun).
  apply hbind_inr in Hrun as (body & s4 & [= <- <-] & Hrun).
  apply hbind_inr in Hrun as (h & s5 & Hs5 & Hrun).
  destruct (bcrypt_hash _); [|done]. injection Hs5 as <- <-.
  apply hbind_inr in Hrun as (i & s6 & [= <- <-] & Hrun).
  apply hbind_inr in Hrun as (rows & s7 & Hs7 & Hrun).
  unfold createOne in Hs7. cbn [users session_user req_body drawn sent] in Hs7.
  destruct (dao_createOne "users" _ (users s2)) as [[rows' users']|] eqn:Hdao; [|done].
  injection Hs7 as <- <-.
  apply payload_tail in Hrun as (u & rest & -> & Hkeys & ->). cbn.
  split; [|split; [done|]].
  - rewrite Hkeys. apply not_elem_of_keys_row_delete.
  - rewrite <- Hu2. eauto.
Qed.

(** X12.  A change of the username that succeeds has sent one row to the
    DAO, the property [username] of the request alone, for the user of
    the id given; its payload has no [password]; the session and the body
    are as they were. *)
Theorem updateUsername_sends_username_only (table : Table) (id : Value)
    (st st' : AuthState) (row : Row) :
  updateUsername JSON_parse COLUMN_MAP table id st = (inr row, st') →
  sent st' = sent st ++ [UpdateOne "users" id [("username", prop "username" (req_body st))]]
  ∧ ("password" ∉ keys row)
  ∧ session_user st' = session_user st
  ∧ req_body st' = req_body st.
Proof.
  unfold updateUsername. intros (body & s1 & [= <- <-] & Hrun)%hbind_inr.
  apply hbind_inr in Hrun as (rows & s2 & Hs2 & Hrun).
  unfold updateOne in Hs2. cbn [users session_user req_body drawn sent] in Hs2.
  destruct (dao_updateOne "users" id _ (users st)) as [[rows' users']|]; [|done].
  injection Hs2 as <- <-.
  apply payload_tail in Hrun as (u & rest & -> & Hkeys & ->). cbn.
  split_and!; try done.
  rewrite Hkeys. apply not_elem_of_keys_row_delete.
Qed.

(** X13.  A change of the password that succeeds has sent one row to the
    DAO, the hash of the password of the request alone, and its payload is
    the array that the DAO resolved to, as it is: [delete
    updatedUser.password] is applied to the array, not to its rows. *)
Theorem updatePasswordHandler_payload_is_dao_answer (id : Value) (st st' : AuthState)
    (rows : list Row) :
  updatePasswordHandler id st = (inr rows, st') →
  ∃ h, bcrypt_hash (prop "password" (req_body st)) = Some h
       ∧ sent st' = sent st ++ [UpdateOne "users" id [("password", h)]]
       ∧ dao_updateOne "users" id [("password", h)] (users st) = Some (rows, users st').
Proof.
  unfold updatePasswordHandler. intros (body & s1 & [= <- <-] & Hrun)%hbind_inr.
  apply hbind_inr in Hrun as (h & s2 & Hs2 & Hrun).
  destruct (bcrypt_hash _) as [h'|] eqn:Hhash; [|done]. injection Hs2 as <- <-.
  apply hbind_inr in Hrun as (rows' & s3 & Hs3 & [= <- <-]).
  unfold updateOne in Hs3. cbn [users session_user req_body drawn sent] in Hs3.
  destruct (dao_updateOne "users" id _ (users st)) as [[rows'' users']|] eqn:Hdao; [|done].
  injection Hs3 as <- <-. exists h'. by split_and!.
Qed.

(** X14.  A login that succeeds: the DAO has found a row for the username
    of the request, [bcrypt] has matched the password of the request with
    the one of that row, and the session user and the payload are that row
    without its [password]; nothing is written. *)
Theorem login_success (table : string) (st st' : AuthState) (row : Row) :
  login table st = (inr row, st') →
  ∃ found rest,
    dao_search table [("username", prop "username" (req_body st))] (users st)
      = Some (found :: rest)
    ∧ bcrypt_compare (prop "password" (req_body st)) (prop "password" found) = Some true
    ∧ row = row_delete "password" found
    ∧ ("password" ∉ keys row)
    ∧ st' = mkAuthState (users st) (Some row) (req_body st) (drawn st) (sent st).
Proof.
  unfold login. intros (body & s1 & [= <- <-] & Hrun)%hbind_inr.
  apply hbind_inr in Hrun as (existing & s2 & Hs2 & Hrun).
  unfold search in Hs2. destruct (dao_search table _ (users st)) as [rows|] eqn:Hdao; [|done].
  injection Hs2 as <- <-. destruct rows as [|found rest]; [done|].
  apply hbind_inr in Hrun as (m & s3 & Hs3 & Hrun).
  destruct (bcrypt_compare _ _) as [m'|] eqn:Hcmp; [|done]. injection Hs3 as <- <-.
  destruct m'; [|done]. cbn [negb] in Hrun.
  apply hbind_inr in Hrun as ([] & s4 & [= <-] & Hrun).
  apply hbind_inr in Hrun as ([] & s5 & Hs5 & Hrun).
  destruct (listeners _ _) as [[]|]; [|done]. cbn in Hs5.
  injection Hs5 as <-. injection Hrun as <- <-.
  exists found, rest. split_and!; try done. apply not_elem_of_keys_row_delete.
Qed.

(** X15.  A login that fails before the session is set has changed
    nothing: the DAO search or [bcrypt.compare] has rejected, or the
    username is unknown or the password wrong, and these two make it throw
    the same [AuthenticationError], without a message.  The one other
    failure is a rejection of the listeners of the login event, after the
    password has matched: the handler throws and the session user is
    already the found row without its [password]; nothing else has
    changed. *)
Theorem login_failure (table : string) (st st' : AuthState) (e : AuthException) :
  login table st = (inl e, st') →
  match dao_search table [("username", prop "username" (req_body st))] (users st) with
  | None => e = Rejected "search" ∧ st' = st
  | Some [] => e = AuthenticationError None ∧ st' = st
  | Some (found :: _) =>
      match bcrypt_compare (prop "password" (req_body st)) (prop "password" found) with
      | None => e = Rejected "bcrypt.compare" ∧ st' = st
      | Some false => e = AuthenticationError None ∧ st' = st
      | Some true =>
          e = Rejected "triggerListeners"
          ∧ listeners table (row_delete "password" found) = None
          ∧ st' = mkAuthState (users st) (Some (row_delete "password" found))
                    (req_body st) (drawn st) (sent st)
      end
  end.
Proof.
  unfold login. hred.
  destruct (dao_search table _ (users st)) as [[|found rest]|].
  - by intros [= <- <-].
  - destruct (bcrypt_compare _ _) as [[]|]; cbn [negb].
    + destruct (listeners _ _) as [[]|] eqn:Hl; [done|]. by intros [= <- <-].
    + by intros [= <- <-].
    + by intros [= <- <-].
  - by intros [= <- <-].
Qed.

(** X16.  [registerAdminHandler] sends at most one row to the DAO, and
    only when the table [admins] is empty or the session user has the role
    [admin], and no admin has the username of the request: the row has a
    fresh id, that username, the hash of the password of the request and
    the role [admin], and nothing else of the request. *)
Theorem registerAdminHandler_guard (st : AuthState) :
  sent (registerAdminHandler st).2 = sent st ∨
  ∃ h,
    sent (registerAdminHandler st).2
      = sent st ++ [CreateOne "admins"
                      [("id", generateUuid (drawn st));
                       ("username", prop "username" (req_body st));
                       ("password", h); ("role", str "admin")]]
    ∧ bcrypt_hash (prop "password" (req_body st)) = Some h
    ∧ dao_search "admins" [("username", prop "username" (req_body st))] (users st)
      = Some []
    ∧ (dao_getAll "admins" (users st) = Some []
       ∨ ∃ u, session_user st = Some u ∧ row_get "role" u = Some (str "admin")).
Proof.
  unfold registerAdminHandler. rewrite hbind_run. cbn [getBody]. rewrite hbind_run.
  unfold getAll. destruct (dao_getAll "admins" (users st)) as [admins|] eqn:Hall;
    [|by left].
  cbn [await]. cbn. rewrite hbind_run. cbn [getSession]. rewrite hbind_run.
  match goal with
  | |- context [(search ?t ?f ≫= ?k)] => set (tail := search t f ≫= k)
  end.
  assert (Htail : sent (tail st).2 = sent st ∨
    ∃ h,
      sent (tail st).2
        = sent st ++ [CreateOne "admins"
                        [("id", generateUuid (drawn st));
                         ("username", prop "username" (req_body st));
                         ("password", h); ("role", str "admin")]]
      ∧ bcrypt_hash (prop "password" (req_body st)) = Some h
      ∧ dao_search "admins" [("username", prop "username" (req_body st))] (users st)
        = Some []).
  { subst tail. rewrite hbind_run. unfold search.
    destruct (dao_search "admins" _ (users st)) as [[|a l]|] eqn:Hsearch; cbn;
      [|by left|by left].
    rewrite hbind_run.
    destruct (bcrypt_hash _) as [h|] eqn:Hhash; cbn; [|by left].
    right. exists h. rewrite hbind_run. unfold mret at 1, Handler_ret at 1.
    rewrite hbind_run. cbn [drawUuid]. rewrite hbind_run. unfold createOne.
    cbn [users session_user req_body drawn sent].
    destruct (dao_createOne _ _ _) as [[[|r rs] users']|]; cbn; by split_and!. }
  clearbody tail.
  destruct admins as [|a l]; cbn.
  - destruct Htail as [?|(h & ? & ? & ?)]; [by left|].
    right. exists h. split_and!; try done. by left.
  - destruct (session_user st) as [u|] eqn:Hsess; cbn; [|by left].
    case_bool_decide as Hrole; cbn; [by left|].
    destruct Htail as [?|(h & ? & ? & ?)]; [by left|].
    right. exists h. split_and!; try done. right. by exists u.
Qed.

(** X17.  [adminExistsHandler] changes nothing, and its answer tells what
    [registerAdminHandler] asks of the session: while it answers [false],
    a registration throws neither [UnauthenticatedError] nor
    [ForbiddenError]; once it answers [true], a request without a session
    user is thrown out with [UnauthenticatedError], and one whose session
    user has another role than [admin] with [ForbiddenError], nothing
    being changed. *)
Theorem adminExists_tells_registration_rule (st st1 : AuthState) (registered : bool) :
  adminExistsHandler st = (inr registered, st1) →
  st1 = st
  ∧ match registered, session_user st with
    | false, _ =>
        (registerAdminHandler st).1 ≠ inl UnauthenticatedError
        ∧ (registerAdminHandler st).1 ≠ inl ForbiddenError
    | true, None => registerAdminHandler st = (inl UnauthenticatedError, st)
    | true, Some u =>
        row_get "role" u ≠ Some (str "admin") →
        registerAdminHandler st = (inl ForbiddenError, st)
    end.
Proof.
  unfold adminExistsHandler, registerAdminHandler. hred.
  destruct (dao_getAll "admins" (users st)) as [admins|] eqn:Hall; [|done].
  intros [= <- <-]. split; [done|].
  destruct admins as [|a l].
  - rewrite bool_decide_eq_false_2 by (intros Hne; by apply Hne).
    destruct (dao_search _ _ _) as [[|a l]|]; [|done..].
    destruct (bcrypt_hash _); [|done].
    destruct (dao_createOne _ _ _) as [[[|r rs] ?]|]; done.
  - rewrite bool_decide_eq_true_2 by done.
    destruct (session_user st) as [u|]; [|done].
    intros Hrole. by rewrite bool_decide_eq_true_2.
Qed.

End AuthTheorems.

Lemma registerHandler_payload_has_no_password_witness :
  ∃ row st',
    registerHandler (H := sample_AuthEnv) auth_parse sample_COLUMN_MAP users_table
      (request sample_users (Some bob) eve_body) = (inr row, st')
    ∧ row = [("username", AText "eve"); ("role", AText "user");
             ("creator", AText "U1"); ("id", AText "uuid-0")]
    ∧ "password" ∉ keys row.
Proof.
  eexists _, _. split; [vm_compute; reflexivity|]. split; [reflexivity|].
  refine (proj1 (registerHandler_payload_has_no_password (H := sample_AuthEnv)
                   auth_parse sample_COLUMN_MAP users_table
                   (request sample_users (Some bob) eve_body) _ _ _)).
  reflexivity.
Defined.

Lemma updateUsername_sends_username_only_witness :
  ∃ row st',
    updateUsername (H := sample_AuthEnv) auth_parse sample_COLUMN_MAP users_table
      (AText "U1")
      (request sample_users (Some bob)
         [("username", AText "rob"); ("role", AText "admin")]) = (inr row, st')
    ∧ row = [("id", AText "U1"); ("username", AText "rob"); ("role", AText "user")]
    ∧ sent st' = [UpdateOne "users" (AText "U1") [("username", AText "rob")]]
    ∧ session_user st' = Some bob.
Proof.
  eexists _, _. split; [vm_compute; reflexivity|]. split; [reflexivity|].
  destruct (updateUsername_sends_username_only (H := sample_AuthEnv)
              auth_parse sample_COLUMN_MAP users_table (AText "U1")
              (request sample_users (Some bob)
                 [("username", AText "rob"); ("role", AText "admin")]) _ _ eq_refl)
    as (Hsent & _ & Hsess & _).
  split; [exact Hsent | exact Hsess].
Defined.

Lemma updatePasswordHandler_payload_is_dao_answer_witness :
  ∃ rows st',
    updatePasswordHandler (H := sample_AuthEnv) (AText "U1")
      (request sample_users (Some bob) [("password", AText "new")]) = (inr rows, st')
    ∧ rows = [[("id", AText "U1"); ("username", AText "bob");
               ("password", AText "$2b$new"); ("role", AText "user")]]
    ∧ ∃ h, sent st' = [UpdateOne "users" (AText "U1") [("password", h)]]
           ∧ @dao_updateOne _ sample_AuthEnv "users" (AText "U1") [("password", h)]
               sample_users
             = Some (rows, users st').
Proof.
  eexists _, _. split; [vm_compute; reflexivity|]. split; [reflexivity|].
  destruct (updatePasswordHandler_payload_is_dao_answer (H := sample_AuthEnv)
              (AText "U1")
              (request sample_users (Some bob) [("password", AText "new")]) _ _ eq_refl)
    as (h & _ & Hsent & Hdao).
  exists h. split; [exact Hsent | exact Hdao].
Defined.

Lemma login_success_witness :
  ∃ row st',
    login (H := sample_AuthEnv) "users"
      (request sample_users None
         [("username", AText "bob"); ("password", AText "hunter2")]) = (inr row, st')
    ∧ row = bob
    ∧ session_user st' = Some bob
    ∧ users st' = sample_users.
Proof.
  eexists _, _. split; [vm_compute; reflexivity|]. split; [reflexivity|].
  destruct (login_success (H := sample_AuthEnv) "users"
              (request sample_users None
                 [("username", AText "bob"); ("password", AText "hunter2")]) _ _ eq_refl)
    as (found & rest & _ & _ & _ & _ & Hst).
  split; [exact (f_equal session_user Hst) | exact (f_equal users Hst)].
Defined.

Lemma login_failure_witness :
  ∃ e st',
    login (H := sample_AuthEnv) "users"
      (request sample_users None
         [("username", AText "bob"); ("password", AText "wrong")]) = (inl e, st')
    ∧ e = AuthenticationError None
    ∧ st' = request sample_users None
              [("username", AText "bob"); ("password", AText "wrong")].
Proof.
  eexists _, _. split; [vm_compute; reflexivity|].
  exact (login_failure (H := sample_AuthEnv) "users"
           (request sample_users None
              [("username", AText "bob"); ("password", AText "wrong")]) _ _ eq_refl).
Defined.

Lemma adminExists_tells_registration_rule_witness :
  adminExistsHandler (H := sample_AuthEnv) (request sample_users None eve_body)
  = (inr true, request sample_users None eve_body)
  ∧ registerAdminHandler (EqDecision0 := AuthValue_eq_dec) (H := sample_AuthEnv)
      (request sample_users None eve_body)
    = (inl UnauthenticatedError, request sample_users None eve_body).
Proof.
  split; [reflexivity|].
  exact (proj2 (adminExists_tells_registration_rule (H := sample_AuthEnv)
                  (request sample_users None eve_body)
                  (request sample_users None eve_body) true eq_refl)).
Defined.
